(** * KLineChart rendering and interaction core: a shallow embedding

    The development follows four source files of the repository:

    - [src/data/base/mark/GraphicMark.js]  (module [GraphicMark])
    - [src/widget/DrawWidget.ts]           (module [DrawWidget])
    - the candle area view                 (module [CandleAreaView])
    - [src/view/SessionBreakView.ts]       (module [SessionBreakView])

    JavaScript numbers that are indices, steps, handles or sizes in logical
    pixels are integers [Z]; pixel coordinates, prices and timestamps are
    rationals [Q] (the code only passes them through the axis
    collaborators, compares them or does a few field operations on them).
    The device pixel ratio and the backing-store sizes computed from it are
    binary64 numbers, because [Math.floor] of their product shows the
    rounding.  Objects that the code mutates in place live in an explicit
    heap and arrays hold references to them.  Collaborators that are not
    part of the sources (axes, data store, style options, canvas, animation
    frames, animation driver) are records of functions or events in a
    trace. *)

From Stdlib Require Import ZArith QArith Qround List String Bool Lia Lqa.
From Stdlib Require Floats.SpecFloat.
Import ListNotations.

Set Implicit Arguments.

Open Scope Z_scope.

(* ====================================================================== *)
(** * JavaScript runtime notions shared by the three files *)
(* ====================================================================== *)

Module JS.

(** Exceptions the modelled code can raise. *)
Inductive JsError : Type :=
| TypeError                       (* property access on [undefined] *)
| DOMException (message : string) (* raised by the canvas API *).

(** The completion of a call: a value, or a thrown exception. *)
Inductive Result (A : Type) : Type :=
| Ok (a : A)
| Throw (e : JsError).

Arguments Ok {A} a.
Arguments Throw {A} e.

Definition bind {A B : Type} (r : Result A) (k : A -> Result B) : Result B :=
  match r with
  | Ok a => k a
  | Throw e => Throw e
  end.

(** What a [return] hands back: [return true] or falling off the end. *)
Inductive JsRet : Type :=
| RetBool (b : bool)
| RetUndefined.

Definition truthyRet (r : JsRet) : bool :=
  match r with
  | RetBool b => b
  | RetUndefined => false
  end.

(** Truthiness of an optional number: [undefined], [null] and [0] are falsy. *)
Definition truthyNum (v : option Q) : bool :=
  match v with
  | Some q => negb (Qeq_bool q 0)
  | None => false
  end.

(** Truthiness of an optional boolean flag. *)
Definition truthyFlag (v : option bool) : bool :=
  match v with
  | Some b => b
  | None => false
  end.

(** [isValid] of utils/typeChecks: neither [null] nor [undefined]. *)
Definition isValid {A : Type} (v : option A) : bool :=
  match v with
  | Some _ => true
  | None => false
  end.

(** ** Numbers as the engine computes them

    A number is an IEEE 754 binary64 value; products and quotients are
    rounded to nearest, ties to even.  The arithmetic is the Standard
    Library's [SpecFloat] at precision 53. *)

Definition Number : Type := SpecFloat.spec_float.

Definition prec : Z := 53.
Definition emax : Z := 1024.

(** The number an integer denotes; exact for the integers a number can
    hold, among them all of size below 2^53. *)
Definition ofInt (n : Z) : Number :=
  SpecFloat.binary_normalize prec emax n 0 false.

(** [a * b]. *)
Definition times (a b : Number) : Number := SpecFloat.SFmul prec emax a b.

(** [a / b]. *)
Definition divide (a b : Number) : Number := SpecFloat.SFdiv prec emax a b.

(** The number a decimal literal denotes: the one nearest to the rational
    (numerator and denominator below 2^53). *)
Definition ofQ (q : Q) : Number :=
  divide (ofInt (Qnum q)) (ofInt (Z.pos (Qden q))).

(** [Math.floor]: zeros, infinities and NaN are returned as they are; a
    finite number [m * 2^e] with [e < 0] is rounded down to an integer,
    which a number always holds exactly. *)
Definition Math_floor (a : Number) : Number :=
  match a with
  | SpecFloat.S754_finite s m e =>
      if 0 <=? e then a
      else ofInt ((if s then Z.neg m else Z.pos m) / 2 ^ (- e))
  | _ => a
  end.

End JS.

(* ====================================================================== *)
(** * JavaScript arrays: holes, growth on write, non-index keys *)
(* ====================================================================== *)

Module JsArray.

(** [items] are the slots [0 .. length-1], [None] being a hole; [others]
    are properties stored under keys that are not array indices (a write
    at a negative index creates one and leaves [length] alone). *)
Record t (A : Type) : Type := mk {
  items : list (option A);
  others : list (Z * A)
}.

Arguments mk {A} items others.

Definition empty {A : Type} : t A := mk [] [].

Definition of_list {A : Type} (l : list A) : t A := mk (map Some l) [].

Definition length {A : Type} (a : t A) : Z := Z.of_nat (List.length (items a)).

Fixpoint assoc {A : Type} (k : Z) (l : list (Z * A)) : option A :=
  match l with
  | [] => None
  | (k', v) :: rest => if k =? k' then Some v else assoc k rest
  end.

(** [a[i]]: [undefined] ([None]) for a hole, past the end, or a missing key. *)
Definition get {A : Type} (a : t A) (i : Z) : option A :=
  if i <? 0 then assoc i (others a)
  else match nth_error (items a) (Z.to_nat i) with
       | Some slot => slot
       | None => None
       end.

(** Writing slot [n]: overwrite in range, pad with holes past the end. *)
Fixpoint set_nth {A : Type} (n : nat) (v : A) (l : list (option A))
  : list (option A) :=
  match n, l with
  | O, [] => [Some v]
  | O, _ :: rest => Some v :: rest
  | S n', [] => None :: set_nth n' v []
  | S n', slot :: rest => slot :: set_nth n' v rest
  end.

(** [a[i] = v]. *)
Definition set {A : Type} (a : t A) (i : Z) (v : A) : t A :=
  if i <? 0 then mk (items a) ((i, v) :: others a)
  else mk (set_nth (Z.to_nat i) v (items a)) (others a).

(** [a.map(f)]: holes stay holes, non-index keys are not copied. *)
Definition map {A B : Type} (f : A -> B) (a : t A) : t B :=
  mk (List.map (option_map f) (items a)) [].

(** The visited (index, element) pairs of [a.forEach]: holes are skipped. *)
Fixpoint entries_from {A : Type} (i : Z) (l : list (option A)) : list (Z * A) :=
  match l with
  | [] => []
  | Some v :: rest => (i, v) :: entries_from (i + 1) rest
  | None :: rest => entries_from (i + 1) rest
  end.

Definition entries {A : Type} (a : t A) : list (Z * A) := entries_from 0 (items a).

End JsArray.

(* ====================================================================== *)
(** * src/data/base/mark/GraphicMark.js *)
(* ====================================================================== *)

Module GraphicMark.

Import JS.

Definition GRAPHIC_MARK_DRAW_STEP_START : Z := 1.

Definition GRAPHIC_MARK_DRAW_STEP_FINISHED : Z := -1.

Inductive HoverType : Type := OTHER | POINT | NONE.

Definition HoverType_eqb (a b : HoverType) : bool :=
  match a, b with
  | OTHER, OTHER | POINT, POINT | NONE, NONE => true
  | _, _ => false
  end.

(** [GraphicMarkDrawType]: the two tags of a drawable group. *)
Definition LINE : string := "line".

Definition TEXT : string := "text".

Inductive LineType : Type := COMMON | HORIZONTAL | VERTICAL.

(** ** Data *)

(** A pixel position [{x, y}]. *)
Record XY : Type := { x : Q; y : Q }.

(** A placed time-price point [{timestamp, price, dataIndex}]. *)
Record TPPoint : Type := {
  timestamp : option Q;
  price : Q;
  dataIndex : Q
}.

(** ** Collaborators (not part of the source file) *)

Record Axis : Type := {
  convertToPixel : Q -> Q;
  convertFromPixel : Q -> Q;
  width : Q;
  height : Q
}.

Record LineStyle : Type := { line_color : string; line_size : Q }.

Record TextStyle : Type := {
  text_weight : string;
  text_size : Q;
  text_family : string;
  text_color : string;
  marginLeft : Q;
  marginBottom : Q
}.

Record PointStyle : Type := {
  radius : Q;
  backgroundColor : string;
  borderColor : string;
  borderSize : Q;
  activeRadius : Q;
  activeBackgroundColor : string;
  activeBorderColor : string;
  activeBorderSize : Q
}.

(** [styleOptions().graphicMark]. *)
Record MarkOptions : Type := {
  line : LineStyle;
  text : TextStyle;
  point : PointStyle
}.

Record ChartData : Type := {
  timestampToDataIndex : Q -> Q;
  dataIndexToTimestamp : Q -> option Q;
  graphicMark : MarkOptions;
  pricePrecision : Z;
  volumePrecision : Z
}.

Record Viewport : Type := { viewport_width : Q; viewport_height : Q }.

Record Precision : Type := { precision_price : Z; precision_volume : Z }.

(** ** Drawable groups returned by [createGraphicOptions] *)

(** One element of a group's [dataSource]: an array of pixel points (a
    line) or a [{x, y, text}] object (a label). *)
Inductive DataItem : Type :=
| Points (points : list XY)
| Label (lx ly : Q) (content : string).

Record GraphicOption : Type := {
  type : string;
  isDraw : option bool;
  isCheck : option bool;
  dataSource : option (list DataItem)
}.

(** The destructuring default [dataSource = []]. *)
Definition dataSourceOf (g : GraphicOption) : list DataItem :=
  match dataSource g with
  | Some l => l
  | None => []
  end.

(** ** The canvas context as a trace of calls *)

(** The path calls made inside the callback handed to [renderLine]. *)
Inductive PathOp : Type :=
| BeginPath
| MoveTo (px py : Q)
| LineTo (px py : Q)
| Stroke
| ClosePath.

Inductive CtxOp : Type :=
| SetStrokeStyle (color : string)
| SetLineWidth (size : Q)
| SetFont (weight : string) (size : Q) (family : string)
| SetFillStyle (color : string)
| FillText (content : string) (px py : Q)
| RenderLine (callback : list PathOp)
| RenderHorizontalLine (py px0 px1 : Q)
| RenderVerticalLine (px py0 py1 : Q)
| RenderStrokeFillCircle (color border : string) (borderWidth : Q)
    (center : XY) (r : Q).

(** What a drawing routine did to the context, and the exception that
    stopped it, if any. *)
Definition Drawing : Type := (list CtxOp * option JsError)%type.

Definition emit (l : list CtxOp) : Drawing := (l, None).

Definition raise (e : JsError) : Drawing := ([], Some e).

Definition andThen (d1 d2 : Drawing) : Drawing :=
  match snd d1 with
  | Some e => d1
  | None => (fst d1 ++ fst d2, snd d2)
  end.

Fixpoint forEach {A : Type} (f : A -> Drawing) (l : list A) : Drawing :=
  match l with
  | [] => emit []
  | a :: rest => andThen (f a) (forEach f rest)
  end.

(** ** The mark, the heap of its points, and the extension hooks *)

Definition loc : Type := nat.

(** The object store: [cell l] is the object at reference [l]; references
    below [next] are allocated. *)
Record Heap : Type := {
  cell : loc -> TPPoint;
  next : loc
}.

Definition write (h : Heap) (l : loc) (o : TPPoint) : Heap :=
  {| cell := fun l' => if Nat.eqb l' l then o else cell h l';
     next := next h |}.

(** An object literal: a fresh reference. *)
Definition alloc (h : Heap) (o : TPPoint) : loc * Heap :=
  (next h, {| cell := fun l' => if Nat.eqb l' (next h) then o else cell h l';
              next := S (next h) |}).

Record GraphicMark : Type := {
  id : string;
  name : string;
  _totalStep : Z;
  _chartData : ChartData;
  _xAxis : Axis;
  _yAxis : Axis;
  _drawStep : Z;
  _tpPoints : JsArray.t loc;
  _hoverType : HoverType;
  _hoverIndex : Z
}.

Record World : Type := {
  heap : Heap;
  this : GraphicMark
}.

Definition with_drawStep (m : GraphicMark) (s : Z) : GraphicMark :=
  {| id := id m; name := name m; _totalStep := _totalStep m;
     _chartData := _chartData m; _xAxis := _xAxis m; _yAxis := _yAxis m;
     _drawStep := s; _tpPoints := _tpPoints m;
     _hoverType := _hoverType m; _hoverIndex := _hoverIndex m |}.

Definition with_tpPoints (m : GraphicMark) (a : JsArray.t loc) : GraphicMark :=
  {| id := id m; name := name m; _totalStep := _totalStep m;
     _chartData := _chartData m; _xAxis := _xAxis m; _yAxis := _yAxis m;
     _drawStep := _drawStep m; _tpPoints := a;
     _hoverType := _hoverType m; _hoverIndex := _hoverIndex m |}.

Definition with_hover (m : GraphicMark) (t : HoverType) (i : Z) : GraphicMark :=
  {| id := id m; name := name m; _totalStep := _totalStep m;
     _chartData := _chartData m; _xAxis := _xAxis m; _yAxis := _yAxis m;
     _drawStep := _drawStep m; _tpPoints := _tpPoints m;
     _hoverType := t; _hoverIndex := i |}.

(** The placed points as the code reads them: each reference followed. *)
Definition tpPoints (w : World) : JsArray.t TPPoint :=
  JsArray.mk
    (List.map (option_map (cell (heap w))) (JsArray.items (_tpPoints (this w))))
    (List.map (fun kv => (fst kv, cell (heap w) (snd kv)))
       (JsArray.others (_tpPoints (this w)))).

(** The overridable methods of the class.  The two hooks that answer a
    question ([checkMousePointOn], [createGraphicOptions]) are functions of
    what they are handed, [createGraphicOptions] returning [None] for
    [undefined]; the two that react to an event may change the mark and its
    points; [drawExtend] gives the calls it makes on the context.
    [checkPointOnCircle] is the imported geometry helper, kept with them as
    a parameter. *)
Record Extension : Type := {
  checkPointOnCircle : XY -> Q -> XY -> bool;
  checkMousePointOn : DataItem -> XY -> bool;
  createGraphicOptions :
    JsArray.t TPPoint -> JsArray.t XY -> Viewport -> Precision ->
    Axis -> Axis -> option (list GraphicOption);
  performMouseMoveForDrawing : Z -> TPPoint -> World -> World;
  performMousePressedMove : Z -> TPPoint -> World -> World;
  drawExtend :
    list GraphicOption -> MarkOptions -> Viewport -> Precision ->
    Axis -> Axis -> list CtxOp
}.

(** The class as written: every hook has an empty body. *)
Definition baseExtension (onCircle : XY -> Q -> XY -> bool) : Extension :=
  {| checkPointOnCircle := onCircle;
     checkMousePointOn := fun _ _ => false;
     createGraphicOptions := fun _ _ _ _ _ _ => None;
     performMouseMoveForDrawing := fun _ _ w => w;
     performMousePressedMove := fun _ _ w => w;
     drawExtend := fun _ _ _ _ _ _ => [] |}.

(** ** The methods of the class *)

Section Methods.

Variable ext : Extension.

Definition constructor (id0 name0 : string) (totalStep : Z)
  (chartData : ChartData) (xAxis yAxis : Axis) : GraphicMark :=
  {| id := id0; name := name0; _totalStep := totalStep;
     _chartData := chartData; _xAxis := xAxis; _yAxis := yAxis;
     _drawStep := GRAPHIC_MARK_DRAW_STEP_START;
     _tpPoints := JsArray.empty;
     _hoverType := NONE; _hoverIndex := -1 |}.

(** [timestamp ? convertToPixel(timestampToDataIndex(timestamp))
              : convertToPixel(dataIndex)]. *)
Definition _timestampOrDataIndexToPointX (m : GraphicMark) (tp : TPPoint) : Q :=
  match timestamp tp with
  | Some ts =>
      if truthyNum (Some ts)
      then convertToPixel (_xAxis m) (timestampToDataIndex (_chartData m) ts)
      else convertToPixel (_xAxis m) (dataIndex tp)
  | None => convertToPixel (_xAxis m) (dataIndex tp)
  end.

(** The pixel position computed for a placed point, as [draw] and
    [checkMousePointOnGraphic] both build it. *)
Definition xyPointOf (m : GraphicMark) (tp : TPPoint) : XY :=
  {| x := _timestampOrDataIndexToPointX m tp;
     y := convertToPixel (_yAxis m) (price tp) |}.

Definition getLineType (point1 point2 : XY) : LineType :=
  if Qeq_bool (x point1) (x point2) then VERTICAL
  else if Qeq_bool (y point1) (y point2) then HORIZONTAL
  else COMMON.

(** [points[i]] for an element of a [dataSource]: an object that is not an
    array has no indexed property. *)
Definition itemAt (points : DataItem) (i : nat) : option XY :=
  match points with
  | Points ps => nth_error ps i
  | Label _ _ _ => None
  end.

(** The body of the [forEach] in [_drawLines].  [getLineType] reads [.x] of
    both arguments, which throws when either is [undefined]. *)
Definition drawLine (points : DataItem) : Drawing :=
  match itemAt points 0, itemAt points 1 with
  | Some p0, Some p1 =>
      match getLineType p0 p1 with
      | COMMON =>
          emit [RenderLine [BeginPath; MoveTo (x p0) (y p0);
                            LineTo (x p1) (y p1); Stroke; ClosePath]]
      | HORIZONTAL => emit [RenderHorizontalLine (y p0) (x p0) (x p1)]
      | VERTICAL => emit [RenderVerticalLine (x p0) (y p0) (y p1)]
      end
  | _, _ => raise TypeError
  end.

Definition _drawLines (lines : list DataItem) (markOptions : MarkOptions)
  : Drawing :=
  andThen
    (emit [SetStrokeStyle (line_color (line markOptions));
           SetLineWidth (line_size (line markOptions))])
    (forEach drawLine lines).

(** The body of the [forEach] in [_drawText].  Destructuring [{x, y, text}]
    from an array gives [undefined] coordinates, and the canvas ignores a
    [fillText] whose position is not finite. *)
Definition drawLabel (markOptions : MarkOptions) (item : DataItem) : Drawing :=
  match item with
  | Label lx ly content =>
      emit [FillText content
              (lx + marginLeft (text markOptions))%Q
              (ly - marginBottom (text markOptions))%Q]
  | Points _ => emit []
  end.

Definition _drawText (texts : list DataItem) (markOptions : MarkOptions)
  : Drawing :=
  andThen
    (emit [SetFont (text_weight (text markOptions))
                   (text_size (text markOptions))
                   (text_family (text markOptions));
           SetFillStyle (text_color (text markOptions))])
    (forEach (drawLabel markOptions) texts).

(** The body of [graphicOptions.forEach] in [draw]. *)
Definition drawGroup (markOptions : MarkOptions) (g : GraphicOption) : Drawing :=
  if negb (isValid (isDraw g)) || truthyFlag (isDraw g) then
    if String.eqb (type g) LINE then _drawLines (dataSourceOf g) markOptions
    else if String.eqb (type g) TEXT then _drawLines (dataSourceOf g) markOptions
    else emit []
  else emit [].

Definition viewportOf (m : GraphicMark) : Viewport :=
  {| viewport_width := width (_xAxis m); viewport_height := height (_yAxis m) |}.

Definition precisionOf (m : GraphicMark) : Precision :=
  {| precision_price := pricePrecision (_chartData m);
     precision_volume := volumePrecision (_chartData m) |}.

(** [createGraphicOptions(...) || []]. *)
Definition graphicOptionsOf (w : World) (xyPoints : JsArray.t XY)
  : list GraphicOption :=
  match createGraphicOptions ext (tpPoints w) xyPoints
          (viewportOf (this w)) (precisionOf (this w))
          (_xAxis (this w)) (_yAxis (this w)) with
  | Some l => l
  | None => []
  end.

(** The body of [xyPoints.forEach] that draws the point handles. *)
Definition drawHandle (m : GraphicMark) (markOptions : MarkOptions)
  (entry : Z * XY) : Drawing :=
  let index := fst entry in
  let p := point markOptions in
  if HoverType_eqb (_hoverType m) POINT && (index =? _hoverIndex m) then
    emit [RenderStrokeFillCircle (activeBackgroundColor p) (activeBorderColor p)
            (activeBorderSize p) (snd entry) (activeRadius p)]
  else
    emit [RenderStrokeFillCircle (backgroundColor p) (borderColor p)
            (borderSize p) (snd entry) (radius p)].

Definition draw (w : World) : Drawing :=
  let m := this w in
  let xyPoints := JsArray.map (xyPointOf m) (tpPoints w) in
  let markOptions := graphicMark (_chartData m) in
  andThen
    (if negb (_drawStep m =? GRAPHIC_MARK_DRAW_STEP_START)
        && (0 <? JsArray.length xyPoints) then
       let graphicOptions := graphicOptionsOf w xyPoints in
       andThen
         (forEach (drawGroup markOptions) graphicOptions)
         (emit (drawExtend ext graphicOptions markOptions
                  (viewportOf m) (precisionOf m) (_xAxis m) (_yAxis m)))
     else emit [])
    (if negb (HoverType_eqb (_hoverType m) NONE) then
       forEach (drawHandle m markOptions) (JsArray.entries xyPoints)
     else emit []).

Definition hoverType (w : World) : HoverType := _hoverType (this w).

Definition isDrawing (w : World) : bool :=
  negb (_drawStep (this w) =? GRAPHIC_MARK_DRAW_STEP_FINISHED).

Definition setHover (w : World) (t : HoverType) (i : Z) : World :=
  {| heap := heap w; this := with_hover (this w) t i |}.

Definition resetHoverParams (w : World) : World := setHover w NONE (-1).

(** The first loop of [checkMousePointOnGraphic], from index [i] on, with
    the pixel points pushed so far.  Destructuring a hole throws. *)
Fixpoint checkPlacedPoints (m : GraphicMark) (pt : XY) (i : Z)
  (xyPoints : list XY) (slots : list (option TPPoint))
  : Result (option Z * list XY) :=
  match slots with
  | [] => Ok (None, xyPoints)
  | None :: _ => Throw TypeError
  | Some tp :: rest =>
      let xyPoint := xyPointOf m tp in
      if checkPointOnCircle ext xyPoint
           (radius (point (graphicMark (_chartData m)))) pt
      then Ok (Some i, xyPoints ++ [xyPoint])
      else checkPlacedPoints m pt (i + 1) (xyPoints ++ [xyPoint]) rest
  end.

(** The inner loop over one [dataSource]. *)
Fixpoint firstHit (pt : XY) (i : Z) (source : list DataItem) : option Z :=
  match source with
  | [] => None
  | points :: rest =>
      if checkMousePointOn ext points pt then Some i
      else firstHit pt (i + 1) rest
  end.

(** The loop over the groups. *)
Fixpoint checkGroups (pt : XY) (graphicOptions : list GraphicOption)
  : option Z :=
  match graphicOptions with
  | [] => None
  | g :: rest =>
      if truthyFlag (isCheck g) then
        match firstHit pt 0 (dataSourceOf g) with
        | Some i => Some i
        | None => checkGroups pt rest
        end
      else checkGroups pt rest
  end.

Definition checkMousePointOnGraphic (pt : XY) (w : World)
  : Result (JsRet * World) :=
  bind (checkPlacedPoints (this w) pt 0 [] (JsArray.items (tpPoints w)))
    (fun r =>
       match fst r with
       | Some i => Ok (RetBool true, setHover w POINT i)
       | None =>
           match checkGroups pt
                   (graphicOptionsOf w (JsArray.of_list (snd r))) with
           | Some i => Ok (RetBool true, setHover w OTHER i)
           | None => Ok (RetUndefined, resetHoverParams w)
           end
       end).

Definition mouseMoveForDrawing (pt : XY) (w : World) : World :=
  let m := this w in
  let dataIndex0 := convertFromPixel (_xAxis m) (x pt) in
  let timestamp0 := dataIndexToTimestamp (_chartData m) dataIndex0 in
  let price0 := convertFromPixel (_yAxis m) (y pt) in
  let tp := {| timestamp := timestamp0; price := price0;
               dataIndex := dataIndex0 |} in
  let (l, h) := alloc (heap w) tp in
  performMouseMoveForDrawing ext (_drawStep m) tp
    {| heap := h;
       this := with_tpPoints m (JsArray.set (_tpPoints m) (_drawStep m - 1) l) |}.

Definition mouseLeftButtonDownForDrawing (w : World) : World :=
  let m := this w in
  if _drawStep m =? _totalStep m - 1 then
    {| heap := heap w; this := with_drawStep m GRAPHIC_MARK_DRAW_STEP_FINISHED |}
  else
    {| heap := heap w; this := with_drawStep m (_drawStep m + 1) |}.

Definition setTimestamp (o : TPPoint) (v : option Q) : TPPoint :=
  {| timestamp := v; price := price o; dataIndex := dataIndex o |}.

Definition setDataIndex (o : TPPoint) (v : Q) : TPPoint :=
  {| timestamp := timestamp o; price := price o; dataIndex := v |}.

Definition setPrice (o : TPPoint) (v : Q) : TPPoint :=
  {| timestamp := timestamp o; price := v; dataIndex := dataIndex o |}.

(** The three field assignments go through the reference stored at
    [hoverIndex]; assigning to a field of [undefined] throws. *)
Definition mousePressedMove (pt : XY) (w : World) : Result World :=
  let m := this w in
  if HoverType_eqb (_hoverType m) POINT && negb (_hoverIndex m =? -1) then
    let dataIndex0 := convertFromPixel (_xAxis m) (x pt) in
    let timestamp0 := dataIndexToTimestamp (_chartData m) dataIndex0 in
    let price0 := convertFromPixel (_yAxis m) (y pt) in
    match JsArray.get (_tpPoints m) (_hoverIndex m) with
    | None => Throw TypeError
    | Some l =>
        let h1 := write (heap w) l (setTimestamp (cell (heap w) l) timestamp0) in
        let h2 := write h1 l (setDataIndex (cell h1 l) dataIndex0) in
        let h3 := write h2 l (setPrice (cell h2 l) price0) in
        Ok (performMousePressedMove ext (_hoverIndex m)
              {| timestamp := timestamp0; price := price0;
                 dataIndex := dataIndex0 |}
              {| heap := h3; this := m |})
    end
  else Ok w.

End Methods.

End GraphicMark.

(* ====================================================================== *)
(** * src/widget/DrawWidget.ts *)
(* ====================================================================== *)

Module DrawWidget.

Definition DEFAULT_REQUEST_ID : Z := -1.

(** Modelled from the spec: the [UpdateLevel] enumeration, imported from
    common/Updater, which is not among the sources.  The spec lists the
    levels [MAIN], [OVERLAY], [ALL] and [DRAWER], the four that [updateImp]
    tests for. *)
Inductive UpdateLevel : Type := MAIN | OVERLAY | DRAWER | ALL.

Definition UpdateLevel_eqb (a b : UpdateLevel) : bool :=
  match a, b with
  | MAIN, MAIN | OVERLAY, OVERLAY | DRAWER, DRAWER | ALL, ALL => true
  | _, _ => false
  end.

(** ** The DOM as the widget sees it *)

(** Calls on a 2D context. *)
Inductive CtxCall : Type :=
| ClearRect (cx cy cw ch : Z)
| Scale (sx sy : JS.Number).

(** A canvas element with its context.  [offsetWidth]/[offsetHeight] are
    the laid-out size in logical pixels: assigning [style.width] and
    [style.height] in pixels sets them.  [width]/[height] are the numbers
    last assigned to the backing-store attributes.  [calls] are the calls
    made on the context, oldest first. *)
Record Canvas : Type := {
  offsetWidth : Z;
  offsetHeight : Z;
  width : JS.Number;
  height : JS.Number;
  calls : list CtxCall
}.

(** The container element: [style.left] and its laid-out size. *)
Record Container : Type := {
  style_left : Z;
  container_offsetWidth : Z;
  container_offsetHeight : Z
}.

Record Bounding : Type := {
  bounding_width : Z;
  bounding_height : Z;
  bounding_left : Z
}.

(** ** Animation frames *)

(** The three closures [updateImp] hands to [_optimalUpdate]. *)
Inductive Update : Type :=
| UpdateMain      (* updateMain(mainCtx) *)
| UpdateOverlay   (* updateOverlay(overlayCtx) *)
| UpdateBoth      (* updateMain(mainCtx); updateOverlay(overlayCtx) *).

(** The calls a closure makes on the abstract methods when it runs. *)
Inductive Redraw : Type := RedrawMain | RedrawOverlay.

Definition body (u : Update) : list Redraw :=
  match u with
  | UpdateMain => [RedrawMain]
  | UpdateOverlay => [RedrawOverlay]
  | UpdateBoth => [RedrawMain; RedrawOverlay]
  end.

(** The host's frame queue: handles are handed out in increasing order;
    [pending] are the callbacks not yet run nor cancelled. *)
Record Frames : Type := {
  nextHandle : Z;
  pending : list (Z * Update)
}.

Definition requestAnimationFrame (u : Update) (f : Frames) : Z * Frames :=
  (nextHandle f,
   {| nextHandle := nextHandle f + 1;
      pending := pending f ++ [(nextHandle f, u)] |}).

Definition cancelAnimationFrame (handle : Z) (f : Frames) : Frames :=
  {| nextHandle := nextHandle f;
     pending := filter (fun p => negb (fst p =? handle)) (pending f) |}.

(** ** The widget *)

Record World : Type := {
  _mainCanvas : Canvas;
  _overlayCanvas : Canvas;
  _requestAnimationId : Z;
  container : Container;
  frames : Frames;
  devicePixelRatio : JS.Number; (* what getPixelRatio(canvas) returns *)
  executed : list Update       (* callbacks run so far, oldest first *)
}.

Definition with_canvases (w : World) (m o : Canvas) : World :=
  {| _mainCanvas := m; _overlayCanvas := o;
     _requestAnimationId := _requestAnimationId w;
     container := container w; frames := frames w;
     devicePixelRatio := devicePixelRatio w; executed := executed w |}.

Definition with_container (w : World) (c : Container) : World :=
  {| _mainCanvas := _mainCanvas w; _overlayCanvas := _overlayCanvas w;
     _requestAnimationId := _requestAnimationId w;
     container := c; frames := frames w;
     devicePixelRatio := devicePixelRatio w; executed := executed w |}.

Definition with_request (w : World) (handle : Z) (f : Frames) : World :=
  {| _mainCanvas := _mainCanvas w; _overlayCanvas := _overlayCanvas w;
     _requestAnimationId := handle;
     container := container w; frames := f;
     devicePixelRatio := devicePixelRatio w; executed := executed w |}.

(** [ctx.clearRect(0, 0, canvas.offsetWidth, canvas.offsetHeight)]. *)
Definition clearRect (c : Canvas) : Canvas :=
  {| offsetWidth := offsetWidth c; offsetHeight := offsetHeight c;
     width := width c; height := height c;
     calls := calls c ++ [ClearRect 0 0 (offsetWidth c) (offsetHeight c)] |}.

(** The five statements that resize one canvas: CSS size, backing store,
    then [ctx.scale(pixelRatio, pixelRatio)]. *)
Definition resize (c : Canvas) (domWidth domHeight : Z)
  (scaleWidth scaleHeight pixelRatio : JS.Number) : Canvas :=
  {| offsetWidth := domWidth; offsetHeight := domHeight;
     width := scaleWidth; height := scaleHeight;
     calls := calls c ++ [Scale pixelRatio pixelRatio] |}.

Definition _optimalUpdate (update : Update) (w : World) : World :=
  let w1 :=
    if negb (_requestAnimationId w =? DEFAULT_REQUEST_ID) then
      with_request w DEFAULT_REQUEST_ID
        (cancelAnimationFrame (_requestAnimationId w) (frames w))
    else w in
  let (handle, f) := requestAnimationFrame update (frames w1) in
  with_request w1 handle f.

(** The [switch (l)] at the end of [updateImp]. *)
Definition dispatch (l : UpdateLevel) : Update :=
  match l with
  | MAIN => UpdateMain
  | OVERLAY => UpdateOverlay
  | DRAWER | ALL => UpdateBoth
  end.

Definition sizeFlag (bounding : Bounding) (c : Container) : bool :=
  negb (bounding_width bounding =? container_offsetWidth c)
  || negb (bounding_height bounding =? container_offsetHeight c).

Definition updateImp (level : UpdateLevel) (bounding : Bounding) (w : World)
  : World :=
  let w0 :=
    with_container w
      {| style_left := bounding_left bounding;
         container_offsetWidth := container_offsetWidth (container w);
         container_offsetHeight := container_offsetHeight (container w) |} in
  let '(l, w2) :=
    if sizeFlag bounding (container w0) then
      let main1 := clearRect (_mainCanvas w0) in
      let overlay1 := clearRect (_overlayCanvas w0) in
      let domWidth := bounding_width bounding in
      let domHeight := bounding_height bounding in
      let w1 :=
        with_container w0
          {| style_left := style_left (container w0);
             container_offsetWidth := domWidth;
             container_offsetHeight := domHeight |} in
      let pixelRatio := devicePixelRatio w1 in
      let scaleWidth :=
        JS.Math_floor (JS.times (JS.ofInt domWidth) pixelRatio) in
      let scaleHeight :=
        JS.Math_floor (JS.times (JS.ofInt domHeight) pixelRatio) in
      let main2 :=
        resize main1 domWidth domHeight scaleWidth scaleHeight pixelRatio in
      let overlay2 :=
        resize overlay1 domWidth domHeight scaleWidth scaleHeight pixelRatio in
      (DRAWER, with_canvases w1 main2 overlay2)
    else
      let l := level in
      let main1 :=
        if UpdateLevel_eqb l ALL || UpdateLevel_eqb l DRAWER
           || UpdateLevel_eqb l MAIN
        then clearRect (_mainCanvas w0) else _mainCanvas w0 in
      let overlay1 :=
        if UpdateLevel_eqb l ALL || UpdateLevel_eqb l DRAWER
           || UpdateLevel_eqb l OVERLAY
        then clearRect (_overlayCanvas w0) else _overlayCanvas w0 in
      (l, with_canvases w0 main1 overlay1) in
  _optimalUpdate (dispatch l) w2.

(** The host fires a frame: every pending callback runs, in request order. *)
Definition fireFrame (w : World) : World :=
  {| _mainCanvas := _mainCanvas w; _overlayCanvas := _overlayCanvas w;
     _requestAnimationId := _requestAnimationId w;
     container := container w;
     frames := {| nextHandle := nextHandle (frames w); pending := [] |};
     devicePixelRatio := devicePixelRatio w;
     executed := executed w ++ List.map snd (pending (frames w)) |}.

(** [updateImp] called once per element of [requests], in order, with no
    frame fired in between. *)
Fixpoint updates (requests : list (UpdateLevel * Bounding)) (w : World) : World :=
  match requests with
  | [] => w
  | (level, bounding) :: rest => updates rest (updateImp level bounding w)
  end.

End DrawWidget.

(* ====================================================================== *)
(** * The candle area view ([CandleAreaView.drawImp]) *)
(* ====================================================================== *)

Module CandleAreaView.

Import JS.

(** [e.toString()] for the exceptions of the model. *)
Definition toString (e : JsError) : string :=
  match e with
  | TypeError => "TypeError"
  | DOMException message => message
  end.

Definition MAX_SAFE_INTEGER : Q := inject_Z 9007199254740991.

Record Coordinate : Type := { x : Q; y : Q }.

Record GradientColor : Type := { offset : Q; color : string }.

(** [styles.backgroundColor]: a colour string or an array of stops. *)
Inductive BackgroundColor : Type :=
| Solid (c : string)
| Stops (stops : list GradientColor).

Record PointStyles : Type := {
  show : bool;
  point_color : string;
  radius : Q;
  rippleColor : string;
  rippleRadius : Q;
  animation : bool;
  animationDuration : Q
}.

(** [chart.getStyles().candle.area]. *)
Record AreaStyles : Type := {
  value : string;
  lineColor : string;
  lineSize : Q;
  smooth : bool;
  backgroundColor : BackgroundColor;
  point : PointStyles
}.

(** A data record, read by key: [None] when the key is absent or its
    value is not a number. *)
Definition KLineData : Type := string -> option Q.

Record VisibleData : Type := {
  data : option KLineData;
  data_x : Q;
  dataIndex : Z
}.

(** ** Figures *)

Inductive Attrs : Type :=
| LineAttrs (coordinates : list Coordinate)
| CircleAttrs (cx cy r : Q).

Inductive Styles : Type :=
| LineStyles (line_color : string) (line_size : Q) (line_smooth : bool)
| FillStyles (fill_color : string).

Record Figure : Type := { name : string; attrs : Attrs; styles : Styles }.

Definition setAttrs (f : Figure) (a : Attrs) : Figure :=
  {| name := name f; attrs := a; styles := styles f |}.

(** ** The canvas *)

Record CanvasGradient : Type := {
  gx0 : Q; gy0 : Q; gx1 : Q; gy1 : Q;
  colorStops : list GradientColor
}.

Inductive FillStyle : Type :=
| FillColor (c : string)
| FillGradient (g : CanvasGradient).

(** Everything the draw pass does to the outside, in order. *)
Inductive Event : Type :=
| DrawFigure (f : Figure)
| CreateLinearGradient (x0 y0 x1 y1 : Q)
| AddColorStop (stop : GradientColor)
| ConsoleLog (message : string)
| SetFillStyle (style : FillStyle)
| BeginPath
| MoveTo (px py : Q)
| LineTo (px py : Q)
| LineToHelper (coordinates : list Coordinate) (isSmooth : bool)
| ClosePath
| Fill
| AnimationSetDuration (duration : Q)
| AnimationStart
| AnimationStop
| UpdatePane (paneId : string)
    (* chart.updatePane(UpdateLevel.Main, paneId) *).

Definition Trace : Type := list Event.

(** ** The animation driver *)

(** Modelled from the spec: the driver class ([common/Animation]) is not
    among the sources.  Its state is the [running] flag and the [duration]
    of the spec's data model; [setDuration] stores the duration, [start]
    sets [running] and is idempotent while running, [stop] clears it.
    Frames reach the registered callback from the host, between draw
    passes.  Whether [stop()] also hands the callback a last frame before
    it returns is not said there: it is left to the collaborators
    ([lastFrame] in [Env]). *)
Record Animation : Type := { running : bool; duration : Q }.

Definition setDuration (d : Q) (a : Animation) : Animation :=
  {| running := running a; duration := d |}.

Definition start (a : Animation) : Animation :=
  {| running := true; duration := duration a |}.

Definition stop (a : Animation) : Animation :=
  {| running := false; duration := duration a |}.

(** ** Collaborators *)

Record Env : Type := {
  dataListLength : Z;                     (* chart.getDataList().length *)
  boundingHeight : Q;                     (* widget.getBounding().height *)
  convertToPixel : Q -> Q;                (* yAxis.convertToPixel *)
  areaStyles : AreaStyles;
  visible : list VisibleData;             (* what eachChildren walks *)
  createFigure : Figure -> option Figure; (* null for an invalid spec *)
  colorStopError : GradientColor -> option JsError;
    (* the exception gradient.addColorStop raises for a stop, if any *)
  paneId : string;                        (* pane.getId() *)
  lastFrame : Animation -> option Q
    (* the time stop() hands to the registered callback, if it calls it *)
}.

(** The view's own fields. *)
Record View : Type := {
  _figure : option Figure;
  _animationFrameTime : Q;
  _animation : Animation
}.

(** ** Sequencing with exceptions *)

(** A piece of the method: the events it produced, the view afterwards, and
    the exception it ended with, if any. *)
Definition Step : Type := View -> Trace * View * option JsError.

Definition andThen (s1 s2 : Step) : Step :=
  fun v =>
    let '(t1, v1, r1) := s1 v in
    match r1 with
    | Some e => (t1, v1, Some e)
    | None => let '(t2, v2, r2) := s2 v1 in (t1 ++ t2, v2, r2)
    end.

Definition tell (t : Trace) : Step := fun v => (t, v, None).

(** [figure?.draw(ctx)]. *)
Definition drawOpt (f : option Figure) : Trace :=
  match f with
  | Some fig => [DrawFigure fig]
  | None => []
  end.

(** ** The first loop: [eachChildren] *)

Record Collected : Type := {
  coordinates : list Coordinate;
  minY : Q;
  areaStartX : Q;
  indicatePointCoordinate : option Coordinate
}.

Definition Qmin (a b : Q) : Q := if Qle_bool a b then a else b.

(** One call of the callback, for the element at index [i]. *)
Definition visit (env : Env) (i : Z) (d : VisibleData) (c : Collected)
  : Collected :=
  match match data d with
        | Some kLineData => kLineData (value (areaStyles env))
        | None => None
        end with
  | Some v =>
      let py := convertToPixel env v in
      {| coordinates := coordinates c ++ [{| x := data_x d; y := py |}];
         minY := Qmin (minY c) py;
         areaStartX := if i =? 0 then data_x d else areaStartX c;
         indicatePointCoordinate :=
           if dataIndex d =? dataListLength env - 1
           then Some {| x := data_x d; y := py |}
           else indicatePointCoordinate c |}
  | None => c
  end.

Fixpoint eachChildren (env : Env) (i : Z) (l : list VisibleData) (c : Collected)
  : Collected :=
  match l with
  | [] => c
  | d :: rest => eachChildren env (i + 1) rest (visit env i d c)
  end.

Definition collect (env : Env) : Collected :=
  eachChildren env 0 (visible env)
    {| coordinates := []; minY := MAX_SAFE_INTEGER; areaStartX := 0;
       indicatePointCoordinate := None |}.

(** ** The gradient *)

(** [backgroundColor.forEach(({offset, color}) =>
       gradient.addColorStop(offset, color))]: the stops added, the
    gradient as the loop left it, and the exception that ended the loop. *)
Fixpoint addColorStops (env : Env) (g : CanvasGradient)
  (stops : list GradientColor) : Trace * CanvasGradient * option JsError :=
  match stops with
  | [] => ([], g, None)
  | s :: rest =>
      match colorStopError env s with
      | Some e => ([], g, Some e)
      | None =>
          let g1 := {| gx0 := gx0 g; gy0 := gy0 g; gx1 := gx1 g; gy1 := gy1 g;
                       colorStops := colorStops g ++ [s] |} in
          let '(t, g2, r) := addColorStops env g1 rest in
          (AddColorStop s :: t, g2, r)
      end
  end.

(** [try { ...forEach... } catch (e) { console.log(...) }]. *)
Definition tryAddColorStops (env : Env) (g : CanvasGradient)
  (stops : list GradientColor) : Trace * CanvasGradient * option JsError :=
  let '(t, g1, thrown) := addColorStops env g stops in
  match thrown with
  | Some e => (t ++ [ConsoleLog ("CandleAreaView " ++ toString e)], g1, None)
  | None => (t, g1, None)
  end.

(** The selection of the fill colour (lines 82 to 96). *)
Definition fillColor (env : Env) (c : Collected)
  : Trace * FillStyle * option JsError :=
  match backgroundColor (areaStyles env) with
  | Stops stops =>
      let gradient := {| gx0 := 0; gy0 := boundingHeight env;
                         gx1 := 0; gy1 := minY c; colorStops := [] |} in
      let '(t, g, r) := tryAddColorStops env gradient stops in
      (CreateLinearGradient 0 (boundingHeight env) 0 (minY c) :: t,
       FillGradient g, r)
  | Solid s => ([], FillColor s, None)
  end.

(** The path that is filled (lines 97 to 104); [first] is
    [coordinates[0]]. *)
Definition areaPath (env : Env) (c : Collected) (first : Coordinate)
  (style : FillStyle) : Trace :=
  let final := last (coordinates c) first in
  [SetFillStyle style;
   BeginPath;
   MoveTo (areaStartX c) (boundingHeight env);
   LineTo (x first) (y first);
   LineToHelper (coordinates c) (smooth (areaStyles env));
   LineTo (x final) (boundingHeight env);
   ClosePath;
   Fill].

(** [if (coordinates.length > 0) { ... }]. *)
Definition areaPart (env : Env) (c : Collected) : Step :=
  match coordinates c with
  | [] => tell []
  | first :: _ =>
      andThen
        (tell (drawOpt (createFigure env
                 {| name := "line";
                    attrs := LineAttrs (coordinates c);
                    styles := LineStyles (lineColor (areaStyles env))
                                (lineSize (areaStyles env))
                                (smooth (areaStyles env)) |})))
        (fun v =>
           let '(t, style, r) := fillColor env c in
           match r with
           | Some e => (t, v, Some e)
           | None => (t ++ areaPath env c first style, v, None)
           end)
  end.

(** The callback registered with [doFrame] (lines 34 to 38): it stores the
    frame time and asks the chart to update the pane. *)
Definition doFrame (env : Env) (time : Q) : Step :=
  fun v =>
    ([UpdatePane (paneId env)],
     {| _figure := _figure v; _animationFrameTime := time;
        _animation := _animation v |},
     None).

(** [this._animation.stop()]: the call, the last frame if the driver hands
    one to the callback, and the driver stopped. *)
Definition stopAnimation (env : Env) : Step :=
  fun v =>
    let '(t, v1, r) :=
      match lastFrame env (_animation v) with
      | Some time => doFrame env time v
      | None => ([], v, None)
      end in
    (AnimationStop :: t,
     {| _figure := _figure v1; _animationFrameTime := _animationFrameTime v1;
        _animation := stop (_animation v1) |},
     r).

(** The indicator point and its ripple (lines 107 to 152). *)
Definition pointPart (env : Env) (c : Collected) : Step :=
  fun v =>
    let pointStyles := point (areaStyles env) in
    match show pointStyles, indicatePointCoordinate c with
    | true, Some p =>
        let t1 :=
          drawOpt (createFigure env
            {| name := "circle";
               attrs := CircleAttrs (x p) (y p) (radius pointStyles);
               styles := FillStyles (point_color pointStyles) |}) in
        let ripple :=
          if animation pointStyles then
            (radius pointStyles
             + _animationFrameTime v / animationDuration pointStyles
               * (rippleRadius pointStyles - radius pointStyles))%Q
          else rippleRadius pointStyles in
        let starts :=
          if animation pointStyles then
            [AnimationSetDuration (animationDuration pointStyles); AnimationStart]
          else [] in
        let started := fun a : Animation =>
          if animation pointStyles then
            start (setDuration (animationDuration pointStyles) a)
          else a in
        let figure :=
          match _figure v with
          | None =>
              createFigure env
                {| name := "circle";
                   attrs := CircleAttrs (x p) (y p) (rippleRadius pointStyles);
                   styles := FillStyles (rippleColor pointStyles) |}
          | Some f => Some (setAttrs f (CircleAttrs (x p) (y p) ripple))
          end in
        (t1 ++ starts ++ drawOpt figure ++ starts,
         {| _figure := figure; _animationFrameTime := _animationFrameTime v;
            _animation := started (started (_animation v)) |},
         None)
    | _, _ => stopAnimation env v
    end.

Definition drawImp (env : Env) : Step :=
  let c := collect env in
  andThen (areaPart env c) (pointPart env c).

End CandleAreaView.

(* ====================================================================== *)
(** * src/view/SessionBreakView.ts *)
(* ====================================================================== *)

Module SessionBreakView.

Import JS.

Record Coordinate : Type := { x : Q; y : Q }.

(** [chartStore.getStyles().sessionBreak]. *)
Record LineStyle : Type := {
  style : string;
  color : string;
  dashedValue : list Q
}.

(** A data record, as far as this view reads it: the flag, [None] when the
    record does not carry it. *)
Record KLineData : Type := { isStartOfSession : option bool }.

Record VisibleData : Type := {
  data : option KLineData;
  data_x : Q
}.

(** The figure spec handed to [createFigure]. *)
Record Figure : Type := {
  name : string;
  coordinates : list Coordinate;
  figure_style : string;
  figure_color : string;
  size : Q;
  figure_dashedValue : list Q
}.

Inductive Event : Type := DrawFigure (f : Figure).

Record Env : Type := {
  boundingHeight : Q;                     (* widget.getBounding().height *)
  sessionBreak : LineStyle;
  visible : list VisibleData;             (* what eachChildren walks *)
  createFigure : Figure -> option Figure  (* null for an invalid spec *)
}.

(** One call of the callback handed to [eachChildren]. *)
Definition visit (env : Env) (d : VisibleData) : list Event :=
  match data d with
  | Some kLineData =>
      if truthyFlag (isStartOfSession kLineData) then
        match createFigure env
                {| name := "line";
                   coordinates := [{| x := data_x d; y := 0 |};
                                   {| x := data_x d; y := boundingHeight env |}];
                   figure_style := style (sessionBreak env);
                   figure_color := color (sessionBreak env);
                   size := 1;
                   figure_dashedValue := dashedValue (sessionBreak env) |} with
        | Some figure => [DrawFigure figure]
        | None => []
        end
      else []
  | None => []
  end.

Fixpoint eachChildren (env : Env) (l : list VisibleData) : list Event :=
  match l with
  | [] => []
  | d :: rest => visit env d ++ eachChildren env rest
  end.

Definition drawImp (env : Env) : list Event := eachChildren env (visible env).

End SessionBreakView.

(* ====================================================================== *)
(** * Event sequences and sample collaborators used in the statements *)
(* ====================================================================== *)

Module Scenario.

Import GraphicMark.

(** A run of mouse moves while a point is being placed. *)
Definition moves (ext : Extension) (pts : list XY) (w : World) : World :=
  fold_left (fun w0 pt => mouseMoveForDrawing ext pt w0) pts w.

(** One placed point: at least one mouse move, then the confirming click. *)
Definition confirm (ext : Extension) (round : XY * list XY) (w : World) : World :=
  mouseLeftButtonDownForDrawing (moves ext (fst round :: snd round) w).

(** Several points placed one after the other. *)
Definition place (ext : Extension) (rounds : list (XY * list XY)) (w : World)
  : World :=
  fold_left (fun w0 round => confirm ext round w0) rounds w.

(** The time-price point [mouseMoveForDrawing] and [mousePressedMove]
    derive from a pixel. *)
Definition derived (m : GraphicMark) (pt : XY) : TPPoint :=
  let dataIndex0 := convertFromPixel (_xAxis m) (x pt) in
  {| timestamp := dataIndexToTimestamp (_chartData m) dataIndex0;
     price := convertFromPixel (_yAxis m) (y pt);
     dataIndex := dataIndex0 |}.

(** The two-point scenario of the specification, for a mark in world [w0]:
    move to (100, 50), click, move to (200, 80), click. *)
Definition twoPointLine (ext : Extension) (w0 : World) : Prop :=
  let p1 := {| x := 100; y := 50 |} in
  let p2 := {| x := 200; y := 80 |} in
  let w1 := mouseLeftButtonDownForDrawing (mouseMoveForDrawing ext p1 w0) in
  let w2 := mouseMoveForDrawing ext p2 w1 in
  let w3 := mouseLeftButtonDownForDrawing w2 in
  (_drawStep (this w1) = 2
   /\ JsArray.items (tpPoints w1) = [Some (derived (this w0) p1)])
  /\ (JsArray.get (tpPoints w2) 1 = Some (derived (this w0) p2)
      /\ _drawStep (this w2) = 2)
  /\ (_drawStep (this w3) = GRAPHIC_MARK_DRAW_STEP_FINISHED
      /\ JsArray.length (tpPoints w3) = 2).

(** The context calls that fill a text. *)
Definition isFillText (op : CtxOp) : bool :=
  match op with
  | FillText _ _ _ => true
  | _ => false
  end.

(** Whether the query pixel lies in the hit-circle of a placed point. *)
Definition hits (ext : Extension) (w : World) (pt : XY) (tp : TPPoint) : bool :=
  checkPointOnCircle ext (xyPointOf (this w) tp)
    (radius (point (graphicMark (_chartData (this w))))) pt.

(** Every slot of the array holds an element. *)
Definition filled {A : Type} (a : JsArray.t A) : Prop :=
  Forall (fun slot => slot <> None) (JsArray.items a).

(** The first-match rule of the hover query, read for every mark and every
    pixel: when slot [i] holds the first placed point whose hit-circle
    contains the pixel, the query returns [true] with [hoverType = POINT]
    and [hoverIndex = i]. *)
Definition firstPointWins (ext : Extension) (pt : XY) (w : World) : Prop :=
  forall i tp,
    JsArray.get (tpPoints w) i = Some tp ->
    hits ext w pt tp = true ->
    (forall j q, JsArray.get (tpPoints w) j = Some q -> j < i ->
                 hits ext w pt q = false) ->
    checkMousePointOnGraphic ext pt w
    = JS.Ok (JS.RetBool true, setHover w POINT i).

(** The no-match rule of the hover query, read for every mark and every
    pixel: when the pixel is in no placed point's hit-circle and no checked
    derived shape accepts it, the query resets the hover fields and returns
    nothing. *)
Definition noMatchResets (ext : Extension) (pt : XY) (w : World) : Prop :=
  (forall i tp, JsArray.get (tpPoints w) i = Some tp ->
                hits ext w pt tp = false) ->
  (forall xyPoints g,
     In g (graphicOptionsOf ext w xyPoints) ->
     JS.truthyFlag (isCheck g) = true ->
     forall item, In item (dataSourceOf g) ->
       checkMousePointOn ext item pt = false) ->
  checkMousePointOnGraphic ext pt w = JS.Ok (JS.RetUndefined, resetHoverParams w).

(** No two keys of the points array hold the same reference, and every
    reference it holds is allocated. *)
Definition wellFormed (w : World) : Prop :=
  (forall i j l,
     JsArray.get (_tpPoints (this w)) i = Some l ->
     JsArray.get (_tpPoints (this w)) j = Some l -> i = j)
  /\ (forall i l,
        JsArray.get (_tpPoints (this w)) i = Some l -> (l < next (heap w))%nat).

(** The worlds the class as written can be in: a new mark, then any
    sequence of its event handlers. *)
Inductive reachable (onCircle : XY -> Q -> XY -> bool) : World -> Prop :=
| reach_new (h : Heap) (id0 name0 : string) (totalStep : Z)
    (chartData : ChartData) (xAxis yAxis : Axis) :
    reachable onCircle
      {| heap := h;
         this := constructor id0 name0 totalStep chartData xAxis yAxis |}
| reach_move (pt : XY) (w : World) :
    reachable onCircle w ->
    reachable onCircle (mouseMoveForDrawing (baseExtension onCircle) pt w)
| reach_click (w : World) :
    reachable onCircle w ->
    reachable onCircle (mouseLeftButtonDownForDrawing w)
| reach_check (pt : XY) (w w' : World) (r : JS.JsRet) :
    reachable onCircle w ->
    checkMousePointOnGraphic (baseExtension onCircle) pt w = JS.Ok (r, w') ->
    reachable onCircle w'
| reach_drag (pt : XY) (w w' : World) :
    reachable onCircle w ->
    mousePressedMove (baseExtension onCircle) pt w = JS.Ok w' ->
    reachable onCircle w'
| reach_reset (w : World) :
    reachable onCircle w -> reachable onCircle (resetHoverParams w).

(** A mark whose data store resolves timestamps with [f] instead. *)
Definition withTimestampToDataIndex (f : Q -> Q) (w : World) : World :=
  let m := this w in
  let c := _chartData m in
  {| heap := heap w;
     this :=
       {| id := id m; name := name m; _totalStep := _totalStep m;
          _chartData :=
            {| timestampToDataIndex := f;
               dataIndexToTimestamp := dataIndexToTimestamp c;
               graphicMark := graphicMark c;
               pricePrecision := pricePrecision c;
               volumePrecision := volumePrecision c |};
          _xAxis := _xAxis m; _yAxis := _yAxis m;
          _drawStep := _drawStep m; _tpPoints := _tpPoints m;
          _hoverType := _hoverType m; _hoverIndex := _hoverIndex m |} |}.

End Scenario.

Module Samples.

Import GraphicMark.

Definition markOptions : MarkOptions :=
  {| line := {| line_color := "#2196F3"; line_size := 1 |};
     text := {| text_weight := "normal"; text_size := 12;
                text_family := "Helvetica"; text_color := "#2196F3";
                marginLeft := 2; marginBottom := 6 |};
     point := {| radius := 4; backgroundColor := "#2196F3";
                 borderColor := "#2196F3"; borderSize := 1;
                 activeRadius := 6; activeBackgroundColor := "#2196F3";
                 activeBorderColor := "#2196F3"; activeBorderSize := 2 |} |}.

(** Bars ten pixels apart, one per minute. *)
Definition xAxis : Axis :=
  {| convertToPixel := fun v => (v * 10)%Q;
     convertFromPixel := fun p => (p / 10)%Q;
     width := 800; height := 30 |}.

(** Price 500 at the top edge, one unit per pixel. *)
Definition yAxis : Axis :=
  {| convertToPixel := fun v => (500 - v)%Q;
     convertFromPixel := fun p => (500 - p)%Q;
     width := 60; height := 400 |}.

Definition chartData : ChartData :=
  {| timestampToDataIndex := fun t => ((t - 1600000000000) / 60000)%Q;
     dataIndexToTimestamp := fun i => Some (1600000000000 + i * 60000)%Q;
     graphicMark := markOptions;
     pricePrecision := 2;
     volumePrecision := 0 |}.

(** The usual point-in-disc test. *)
Definition onCircle (center : XY) (r : Q) (pt : XY) : bool :=
  Qle_bool ((x pt - x center) * (x pt - x center)
            + (y pt - y center) * (y pt - y center))%Q (r * r)%Q.

Definition base : Extension := baseExtension onCircle.

Definition emptyHeap : Heap :=
  {| cell := fun _ => {| timestamp := None; price := 0; dataIndex := 0 |};
     next := 0%nat |}.

(** A freshly constructed mark with [totalStep] steps. *)
Definition fresh (totalStep : Z) : World :=
  {| heap := emptyHeap;
     this := constructor "mark_1" "segment" totalStep chartData xAxis yAxis |}.

Definition px (a b : Q) : XY := {| x := a; y := b |}.

(** A mark variant whose derived shape is the polyline through its points
    and whose shape test accepts every pixel. *)
Definition greedy : Extension :=
  {| checkPointOnCircle := onCircle;
     checkMousePointOn := fun _ _ => true;
     createGraphicOptions := fun _ xyPoints _ _ _ _ =>
       Some [{| type := LINE; isDraw := None; isCheck := Some true;
                dataSource :=
                  Some [Points (List.map snd (JsArray.entries xyPoints))] |}];
     performMouseMoveForDrawing := fun _ _ w => w;
     performMousePressedMove := fun _ _ w => w;
     drawExtend := fun _ _ _ _ _ _ => [] |}.

(** A mark variant that labels its first point. *)
Definition labelled : Extension :=
  {| checkPointOnCircle := onCircle;
     checkMousePointOn := fun _ _ => false;
     createGraphicOptions := fun _ _ _ _ _ _ =>
       Some [{| type := TEXT; isDraw := None; isCheck := None;
                dataSource := Some [Label 10 20 "0.618"] |}];
     performMouseMoveForDrawing := fun _ _ w => w;
     performMousePressedMove := fun _ _ w => w;
     drawExtend := fun _ _ _ _ _ _ => [] |}.

(** Two points placed at (100, 50) and (200, 80), three steps. *)
Definition segmentPlaced (ext : Extension) : World :=
  Scenario.place ext [(px 100 50, [px 101 50]); (px 200 80, [])] (fresh 3).

(** A three-step mark whose first click no mouse move preceded: click,
    move to (200, 80), click.  The first slot of its points array is
    empty. *)
Definition firstSlotEmpty : World :=
  mouseLeftButtonDownForDrawing
    (mouseMoveForDrawing base (px 200 80)
       (mouseLeftButtonDownForDrawing (fresh 3))).

End Samples.

Module WidgetScenario.
Import DrawWidget.
(** The frame queue holds nothing, or exactly the request whose handle the
    widget remembers; handles are never negative. *)
Definition coalesced (w : World) : Prop :=
  0 <= nextHandle (frames w)
  /\ (pending (frames w) = []
      \/ (_requestAnimationId w <> DEFAULT_REQUEST_ID
          /\ exists u, pending (frames w) = [(_requestAnimationId w, u)])).
End WidgetScenario.

Module WidgetSamples.
Import DrawWidget.
(** A canvas element as the browser creates it. *)
Definition blankCanvas : Canvas :=
  {| offsetWidth := 300; offsetHeight := 150;
     width := JS.ofInt 300; height := JS.ofInt 150;
     calls := [] |}.

(** A widget after construction and [initDom], on a display whose pixel
    ratio is the number nearest to [ratio]: no request made yet, nothing
    laid out. *)
Definition initial (ratio : Q) : World :=
  {| _mainCanvas := blankCanvas; _overlayCanvas := blankCanvas;
     _requestAnimationId := DEFAULT_REQUEST_ID;
     container := {| style_left := 0; container_offsetWidth := 0;
                     container_offsetHeight := 0 |};
     frames := {| nextHandle := 1; pending := [] |};
     devicePixelRatio := JS.ofQ ratio;
     executed := [] |}.

Definition pane : Bounding :=
  {| bounding_width := 801; bounding_height := 400; bounding_left := 0 |}.

(** A narrow strip, for a display whose pixel ratio is not a dyadic
    number. *)
Definition strip : Bounding :=
  {| bounding_width := 100; bounding_height := 20; bounding_left := 0 |}.
End WidgetSamples.

Module AreaScenario.
Import CandleAreaView.
(** The same pass with another array of gradient stops as background. *)
Definition withStops (env : Env) (stops : list GradientColor) : Env :=
  {| dataListLength := dataListLength env;
     boundingHeight := boundingHeight env;
     convertToPixel := convertToPixel env;
     areaStyles :=
       {| value := value (areaStyles env);
          lineColor := lineColor (areaStyles env);
          lineSize := lineSize (areaStyles env);
          smooth := smooth (areaStyles env);
          backgroundColor := Stops stops;
          point := point (areaStyles env) |};
     visible := visible env;
     createFigure := createFigure env;
     colorStopError := colorStopError env;
     paneId := paneId env;
     lastFrame := lastFrame env |}.
(** The gradient after the stops [l] were added to it. *)
Definition stopsAdded (g : CanvasGradient) (l : list GradientColor)
  : CanvasGradient :=
  {| gx0 := gx0 g; gy0 := gy0 g; gx1 := gx1 g; gy1 := gy1 g;
     colorStops := colorStops g ++ l |}.

End AreaScenario.

Module AreaSamples.

Import CandleAreaView.

(** The canvas refuses a stop whose offset is outside [0, 1]. *)
Definition offsetError (s : GradientColor) : option JS.JsError :=
  if Qle_bool 0 (offset s) && Qle_bool (offset s) 1 then None
  else Some (JS.DOMException "IndexSizeError").

Definition bar (close : Q) : KLineData :=
  fun key => if String.eqb key "close" then Some close else None.

(** A driver that, stopped while it runs, hands its callback a last frame
    with the full duration. *)
Definition fullDuration (a : Animation) : option Q :=
  if running a then Some (duration a) else None.

(** Three visible bars, the last one being the last of the data list; the
    second gradient stop is out of range. *)
Definition badStops : Env :=
  {| dataListLength := 3;
     boundingHeight := 400;
     convertToPixel := fun v => (500 - v)%Q;
     areaStyles :=
       {| value := "close"; lineColor := "#2196F3"; lineSize := 2;
          smooth := false;
          backgroundColor :=
            Stops [{| offset := 0; color := "rgba(33, 150, 243, 0.01)" |};
                   {| offset := 3 # 2; color := "rgba(33, 150, 243, 0.2)" |};
                   {| offset := 1; color := "rgba(33, 150, 243, 0.4)" |}];
          point := {| show := true; point_color := "#2196F3"; radius := 4;
                      rippleColor := "rgba(33, 150, 243, 0.3)";
                      rippleRadius := 8; animation := true;
                      animationDuration := 1000 |} |};
     visible := [{| data := Some (bar 120); data_x := 5; dataIndex := 0 |};
                 {| data := Some (bar 150); data_x := 15; dataIndex := 1 |};
                 {| data := Some (bar 135); data_x := 25; dataIndex := 2 |}];
     createFigure := fun f => Some f;
     colorStopError := offsetError;
     paneId := "candle_pane";
     lastFrame := fullDuration |}.

(** A view that has not drawn its ripple yet; its driver is not running. *)
Definition idle : View :=
  {| _figure := None; _animationFrameTime := 0;
     _animation := {| running := false; duration := 500 |} |}.

End AreaSamples.

(* ====================================================================== *)
(** * Further notions used in the statements about the rest of the code *)
(* ====================================================================== *)

Module MarkCoverage.

Import GraphicMark.

(** An element of a [dataSource] that [_drawLines] can render: an array
    with at least two points. *)
Definition hasTwoPoints (item : DataItem) : bool :=
  match item with
  | Points (_ :: _ :: _) => true
  | _ => false
  end.

(** [n] confirming clicks in a row. *)
Definition clicks (n : nat) (w : World) : World :=
  Nat.iter n mouseLeftButtonDownForDrawing w.

(** The pixel points [draw] computes, holes kept. *)
Definition xyPoints (w : World) : JsArray.t XY :=
  JsArray.map (xyPointOf (this w)) (tpPoints w).

(** The circle drawn for a point that is not the hovered one. *)
Definition plainHandle (w : World) (center : XY) : CtxOp :=
  let p := point (graphicMark (_chartData (this w))) in
  RenderStrokeFillCircle (backgroundColor p) (borderColor p) (borderSize p)
    center (radius p).

(** The circle drawn for the hovered point. *)
Definition activeHandle (w : World) (center : XY) : CtxOp :=
  let p := point (graphicMark (_chartData (this w))) in
  RenderStrokeFillCircle (activeBackgroundColor p) (activeBorderColor p)
    (activeBorderSize p) center (activeRadius p).

(** What holds of the hover fields in every world the class can reach. *)
Definition hoverValid (w : World) : Prop :=
  match _hoverType (this w) with
  | NONE => _hoverIndex (this w) = -1
  | POINT =>
      0 <= _hoverIndex (this w)
      /\ exists l, JsArray.get (_tpPoints (this w)) (_hoverIndex (this w)) = Some l
  | OTHER => False
  end.

End MarkCoverage.

Module WidgetCoverage.

Import DrawWidget.

(** What can happen to a widget: a call of [updateImp], or the host firing
    a frame. *)
Inductive Step : Type :=
| Call (level : UpdateLevel) (bounding : Bounding)
| Frame.

Fixpoint run (steps : list Step) (w : World) : World :=
  match steps with
  | [] => w
  | Call level bounding :: rest => run rest (updateImp level bounding w)
  | Frame :: rest => run rest (fireFrame w)
  end.

(** A one-slot mailbox: the size last asked for, the redraw waiting for
    the next frame, and the redraws already run. *)
Record Mailbox : Type := {
  box_width : Z;
  box_height : Z;
  slot : option Update;
  delivered : list Update
}.

Definition post (s : Step) (b : Mailbox) : Mailbox :=
  match s with
  | Call level bounding =>
      let resized :=
        negb (bounding_width bounding =? box_width b)
        || negb (bounding_height bounding =? box_height b) in
      {| box_width := bounding_width bounding;
         box_height := bounding_height bounding;
         slot := Some (if resized then UpdateBoth
                       else match level with
                            | MAIN => UpdateMain
                            | OVERLAY => UpdateOverlay
                            | DRAWER | ALL => UpdateBoth
                            end);
         delivered := delivered b |}
  | Frame =>
      {| box_width := box_width b;
         box_height := box_height b;
         slot := None;
         delivered := delivered b ++ match slot b with
                                     | Some u => [u]
                                     | None => []
                                     end |}
  end.

Definition posts (steps : list Step) (b : Mailbox) : Mailbox :=
  fold_left (fun b0 s => post s b0) steps b.

(** The mailbox a widget stands for. *)
Definition mailbox (w : World) : Mailbox :=
  {| box_width := container_offsetWidth (container w);
     box_height := container_offsetHeight (container w);
     slot := match pending (frames w) with
             | [] => None
             | (_, u) :: _ => Some u
             end;
     delivered := executed w |}.

Definition isFrame (s : Step) : bool :=
  match s with
  | Frame => true
  | Call _ _ => false
  end.

Definition isScale (c : CtxCall) : bool :=
  match c with
  | Scale _ _ => true
  | ClearRect _ _ _ _ => false
  end.

End WidgetCoverage.

Module AreaCoverage.

Import CandleAreaView.

(** The value the area plots for a visible element, if it has one. *)
Definition numeric (env : Env) (d : VisibleData) : option Q :=
  match data d with
  | Some kLineData => kLineData (value (areaStyles env))
  | None => None
  end.

(** The pixel point of a visible element that has a value. *)
Definition plotted (env : Env) (d : VisibleData) : option Coordinate :=
  match numeric env d with
  | Some v => Some {| x := data_x d; y := convertToPixel env v |}
  | None => None
  end.

(** The elements that are present, in order. *)
Fixpoint present {A : Type} (l : list (option A)) : list A :=
  match l with
  | [] => []
  | Some a :: rest => a :: present rest
  | None :: rest => present rest
  end.

Definition isLog (ev : Event) : bool :=
  match ev with
  | ConsoleLog _ => true
  | _ => false
  end.

(** Two visible elements, neither with a value to plot. *)
Definition gaps : Env :=
  {| dataListLength := 2;
     boundingHeight := 400;
     convertToPixel := fun v => (500 - v)%Q;
     areaStyles := areaStyles AreaSamples.badStops;
     visible := [{| data := None; data_x := 5; dataIndex := 0 |};
                 {| data := Some (fun _ => None); data_x := 15; dataIndex := 1 |}];
     createFigure := fun f => Some f;
     colorStopError := AreaSamples.offsetError;
     paneId := "candle_pane";
     lastFrame := AreaSamples.fullDuration |}.

(** The view after a draw pass. *)
Definition viewAfter (env : Env) (v : View) : View := snd (fst (drawImp env v)).

End AreaCoverage.

Module SessionCoverage.

Import SessionBreakView.

(** Whether a visible element is flagged as the start of a session. *)
Definition flagged (d : VisibleData) : bool :=
  match data d with
  | Some kLineData => JS.truthyFlag (isStartOfSession kLineData)
  | None => false
  end.

(** The full-height vertical line at pixel column [px]. *)
Definition separator (env : Env) (px : Q) : Figure :=
  {| name := "line";
     coordinates := [{| x := px; y := 0 |};
                     {| x := px; y := boundingHeight env |}];
     figure_style := style (sessionBreak env);
     figure_color := color (sessionBreak env);
     size := 1;
     figure_dashedValue := dashedValue (sessionBreak env) |}.

(** Three bars, the second one opening a session. *)
Definition threeBars : Env :=
  {| boundingHeight := 400;
     sessionBreak := {| style := "dashed"; color := "#888888";
                        dashedValue := [2%Q; 2%Q] |};
     visible := [{| data := Some {| isStartOfSession := None |}; data_x := 5 |};
                 {| data := Some {| isStartOfSession := Some true |};
                    data_x := 15 |};
                 {| data := None; data_x := 25 |}];
     createFigure := fun f => Some f |}.

End SessionCoverage.

(* ====================================================================== *)
(** * Proof automation *)
(* ====================================================================== *)

(** Two traces that differ only in how their pieces are grouped. *)
Ltac same_trace :=
  cbn [fst snd]; repeat (rewrite <- app_assoc; cbn [app]); cbn [app];
  repeat f_equal.

(* ====================================================================== *)
(** * Facts about JavaScript arrays *)
(* ====================================================================== *)

Section JsArrayFacts.

Import JsArray.

Variable A : Type.

Lemma length_set_nth (n : nat) (v : A) (l : list (option A)) :
  List.length (set_nth n v l) = Nat.max (List.length l) (S n).
Proof.
  revert l; induction n as [|n IH]; intros [|s l]; simpl; try reflexivity.
  - now rewrite Nat.max_comm.
  - rewrite IH. reflexivity.
  - rewrite IH. reflexivity.
Qed.

Lemma nth_error_set_nth_eq (n : nat) (v : A) (l : list (option A)) :
  nth_error (set_nth n v l) n = Some (Some v).
Proof.
  revert l; induction n as [|n IH]; intros [|s l]; simpl; auto.
Qed.

(** Reading another slot after a write: the same value as before, where a
    hole and an index past the end both read as [undefined]. *)
Lemma nth_error_set_nth_ne (n k : nat) (v : A) (l : list (option A)) :
  n <> k ->
  match nth_error (set_nth n v l) k with Some s => s | None => None end =
  match nth_error l k with Some s => s | None => None end.
Proof.
  revert k l; induction n as [|n IH]; intros [|k] [|s l] Hne;
    simpl; try congruence.
  - destruct k; reflexivity.
  - rewrite IH by congruence. destruct k; reflexivity.
  - apply IH. congruence.
Qed.

Lemma get_set_eq (a : t A) (i : Z) (v : A) : get (set a i v) i = Some v.
Proof.
  unfold get, set. destruct (i <? 0) eqn:Hi; simpl.
  - now rewrite Z.eqb_refl.
  - now rewrite nth_error_set_nth_eq.
Qed.

Lemma get_set_ne (a : t A) (i j : Z) (v : A) :
  i <> j -> get (set a i v) j = get a j.
Proof.
  intros Hne. unfold get, set.
  destruct (i <? 0) eqn:Hi, (j <? 0) eqn:Hj; simpl; try reflexivity.
  - destruct (j =? i) eqn:E; [apply Z.eqb_eq in E; congruence | reflexivity].
  - apply nth_error_set_nth_ne.
    apply Z.ltb_ge in Hi, Hj. intros E. apply Hne.
    apply Z2Nat.inj in E; lia.
Qed.

Lemma length_set (a : t A) (i : Z) (v : A) :
  length (set a i v) =
  if i <? 0 then length a else Z.max (length a) (i + 1).
Proof.
  unfold length, set. destruct (i <? 0) eqn:Hi; simpl; [reflexivity|].
  rewrite length_set_nth. apply Z.ltb_ge in Hi. lia.
Qed.

End JsArrayFacts.

(* ====================================================================== *)
(** * GraphicMark: placing points *)
(* ====================================================================== *)

Section Placement.

Import JS GraphicMark Scenario.

Variable ext : Extension.

Hypothesis hook_keeps_mark :
  forall step tp w, this (performMouseMoveForDrawing ext step tp w) = this w.

Lemma mouseMoveForDrawing_this (pt : XY) (w : World) :
  this (mouseMoveForDrawing ext pt w) =
  with_tpPoints (this w)
    (JsArray.set (_tpPoints (this w)) (_drawStep (this w) - 1) (next (heap w))).
Proof.
  unfold mouseMoveForDrawing. simpl. now rewrite hook_keeps_mark.
Qed.

Lemma length_tpPoints (w : World) :
  JsArray.length (tpPoints w) = JsArray.length (_tpPoints (this w)).
Proof.
  unfold JsArray.length, tpPoints. simpl. now rewrite length_map.
Qed.

(** Moving while placing point [s]: the step stays, slot [s-1] is filled. *)
Lemma moves_placing (K s : Z) (pts : list XY) (w : World) :
  1 <= s ->
  _totalStep (this w) = K ->
  _drawStep (this w) = s ->
  s - 1 <= JsArray.length (_tpPoints (this w)) <= s ->
  let w' := moves ext pts w in
  _totalStep (this w') = K /\ _drawStep (this w') = s /\
  (JsArray.length (_tpPoints (this w')) =
   match pts with [] => JsArray.length (_tpPoints (this w)) | _ => s end).
Proof.
  revert w. induction pts as [|pt pts IH]; intros w Hs HK Hstep Hlen; simpl.
  - auto.
  - set (w1 := mouseMoveForDrawing ext pt w).
    assert (H1 : this w1 = with_tpPoints (this w)
              (JsArray.set (_tpPoints (this w)) (s - 1) (next (heap w)))).
    { unfold w1. rewrite mouseMoveForDrawing_this. now rewrite Hstep. }
    assert (Hl1 : JsArray.length (_tpPoints (this w1)) = s).
    { rewrite H1. simpl. rewrite length_set.
      destruct (s - 1 <? 0) eqn:E; [apply Z.ltb_lt in E; lia | lia]. }
    destruct (IH w1) as (HK' & Hs' & Hl'); try (rewrite H1; simpl; auto; fail); try lia.
    fold (moves ext pts w1).
    repeat split; auto. rewrite Hl'. destruct pts; auto.
Qed.

Lemma confirm_placing (K s : Z) (round : XY * list XY) (w : World) :
  1 <= s ->
  _totalStep (this w) = K ->
  _drawStep (this w) = s ->
  JsArray.length (_tpPoints (this w)) = s - 1 ->
  let w' := confirm ext round w in
  _totalStep (this w') = K /\
  _drawStep (this w') =
    (if s =? K - 1 then GRAPHIC_MARK_DRAW_STEP_FINISHED else s + 1) /\
  JsArray.length (_tpPoints (this w')) = s.
Proof.
  intros Hs HK Hstep Hlen. unfold confirm.
  destruct (@moves_placing K s (fst round :: snd round) w Hs HK Hstep) as (HK' & Hs' & Hl'); [lia|].
  unfold mouseLeftButtonDownForDrawing. rewrite Hs', HK'.
  destruct (s =? K - 1); simpl; auto.
Qed.

Lemma place_placing (K : Z) (rounds : list (XY * list XY)) :
  forall (s : Z) (w : World),
  1 <= s <= K - 1 ->
  _totalStep (this w) = K ->
  _drawStep (this w) = s ->
  JsArray.length (_tpPoints (this w)) = s - 1 ->
  s + Z.of_nat (List.length rounds) <= K ->
  let j := s - 1 + Z.of_nat (List.length rounds) in
  let w' := place ext rounds w in
  JsArray.length (_tpPoints (this w')) = j /\
  _drawStep (this w') =
    (if j =? K - 1 then GRAPHIC_MARK_DRAW_STEP_FINISHED else j + 1).
Proof.
  induction rounds as [|round rest IH]; intros s w Hs HK Hstep Hlen Hj;
    unfold place; cbn [fold_left List.length] in *.
  - replace (s - 1 + Z.of_nat 0) with (s - 1) by lia. split; [exact Hlen|].
    destruct (s - 1 =? K - 1) eqn:E; [apply Z.eqb_eq in E; lia | lia].
  - fold (place ext rest (confirm ext round w)).
    rewrite Nat2Z.inj_succ in *.
    destruct (@confirm_placing K s round w (proj1 Hs) HK Hstep Hlen)
      as (HK1 & Hs1 & Hl1).
    destruct (s =? K - 1) eqn:E.
    + apply Z.eqb_eq in E.
      destruct rest as [|r rest']; [|cbn [List.length] in Hj; lia].
      cbn [place fold_left List.length]. rewrite Hl1, Hs1.
      replace (s - 1 + Z.succ (Z.of_nat 0)) with s by lia.
      replace (s =? K - 1) with true by (symmetry; apply Z.eqb_eq; exact E).
      auto.
    + apply Z.eqb_neq in E.
      destruct (IH (s + 1) (confirm ext round w)) as (Hl & Hd); try lia; auto.
      replace (s - 1 + Z.succ (Z.of_nat (List.length rest)))
        with (s + 1 - 1 + Z.of_nat (List.length rest)) by lia.
      auto.
Qed.

Lemma set_nth_filled (A : Type) (n : nat) (v : A) (l : list (option A)) :
  (n <= List.length l)%nat ->
  Forall (fun slot => slot <> None) l ->
  Forall (fun slot => slot <> None) (JsArray.set_nth n v l).
Proof.
  revert l. induction n as [|n IH]; intros [|slot l] Hn Hl; cbn in *.
  - constructor; [discriminate | constructor].
  - inversion Hl; subst. constructor; [discriminate | assumption].
  - lia.
  - inversion Hl; subst. constructor; [assumption | apply IH; [lia | assumption]].
Qed.

(** A move while placing point [s] fills slot [s-1] and leaves no slot
    empty. *)
Lemma moves_filled (s : Z) (pts : list XY) :
  forall w : World,
  1 <= s ->
  _drawStep (this w) = s ->
  s - 1 <= JsArray.length (_tpPoints (this w)) <= s ->
  filled (_tpPoints (this w)) ->
  filled (_tpPoints (this (moves ext pts w))).
Proof.
  induction pts as [|pt pts IH]; intros w Hs Hstep Hlen Hf; [exact Hf|].
  cbn [moves fold_left]. fold (moves ext pts (mouseMoveForDrawing ext pt w)).
  assert (H1 : this (mouseMoveForDrawing ext pt w)
               = with_tpPoints (this w)
                   (JsArray.set (_tpPoints (this w)) (s - 1) (next (heap w)))).
  { rewrite mouseMoveForDrawing_this. now rewrite Hstep. }
  assert (E : (s - 1 <? 0) = false) by (apply Z.ltb_ge; lia).
  apply IH; rewrite ?H1; cbn [with_tpPoints _drawStep _tpPoints]; auto.
  - rewrite length_set, E. lia.
  - unfold filled, JsArray.set. rewrite E. cbn [JsArray.items].
    apply set_nth_filled; [unfold JsArray.length in Hlen; lia | exact Hf].
Qed.

Lemma place_filled (K : Z) (rounds : list (XY * list XY)) :
  forall (s : Z) (w : World),
  1 <= s <= K - 1 ->
  _totalStep (this w) = K ->
  _drawStep (this w) = s ->
  JsArray.length (_tpPoints (this w)) = s - 1 ->
  s + Z.of_nat (List.length rounds) <= K ->
  filled (_tpPoints (this w)) ->
  filled (_tpPoints (this (place ext rounds w))).
Proof.
  induction rounds as [|round rest IH]; intros s w Hs HK Hstep Hlen Hj Hf;
    unfold place; cbn [fold_left List.length] in *; [exact Hf|].
  fold (place ext rest (confirm ext round w)).
  rewrite Nat2Z.inj_succ in Hj.
  destruct (@confirm_placing K s round w (proj1 Hs) HK Hstep Hlen)
    as (HK1 & Hs1 & Hl1).
  assert (Hf1 : filled (_tpPoints (this (confirm ext round w)))).
  { unfold confirm, mouseLeftButtonDownForDrawing.
    assert (Hm : filled (_tpPoints (this (moves ext (fst round :: snd round) w))))
      by (apply (@moves_filled s); auto; lia).
    match goal with
    | |- context [if ?c then _ else _] => destruct c
    end; exact Hm. }
  destruct (s =? K - 1) eqn:E.
  - apply Z.eqb_eq in E.
    destruct rest as [|r rest']; [exact Hf1 | cbn [List.length] in Hj; lia].
  - apply Z.eqb_neq in E.
    apply (IH (s + 1)); auto; lia.
Qed.

(** A mark placed the way the specification has it, every confirming click
    after at least one mouse move, has no empty slot. *)
Lemma placed_points_are_filled (K : Z) (w : World)
  (rounds : list (XY * list XY)) :
  2 <= K ->
  _totalStep (this w) = K ->
  _drawStep (this w) = GRAPHIC_MARK_DRAW_STEP_START ->
  _tpPoints (this w) = JsArray.empty ->
  Z.of_nat (List.length rounds) <= K - 1 ->
  exists pts,
    JsArray.items (tpPoints (place ext rounds w)) = List.map Some pts.
Proof.
  intros HK Htotal Hstart Hempty Hj.
  assert (Hf : filled (_tpPoints (this (place ext rounds w)))).
  { apply (@place_filled K rounds 1); auto; try lia.
    - rewrite Hempty. reflexivity.
    - rewrite Hempty. constructor. }
  unfold tpPoints. cbn [JsArray.items]. unfold filled in Hf.
  induction (JsArray.items (_tpPoints (this (place ext rounds w))))
    as [|slot l IHl]; [now exists []|].
  inversion Hf as [|? ? Hslot Hl]; subst.
  destruct (IHl Hl) as [pts Hpts].
  destruct slot as [r|]; [|congruence].
  exists (cell (heap (place ext rounds w)) r :: pts).
  cbn [List.map option_map]. now rewrite Hpts.
Qed.

(** C3.  For a mark with [totalStep = K >= 2]: in state PLACING(step),
    [1 <= step <= K-1], the confirming click moves to FINISHED exactly when
    [step = K - 1] and to PLACING(step + 1) otherwise; and starting from the
    initial state, after [j <= K-1] rounds of "at least one mouse move, then
    a click" the mark holds [j] points, is in PLACING(j + 1) while
    [j < K - 1] and is FINISHED exactly when [j = K - 1]. *)
Theorem placement_monotonicity (K : Z) (w : World)
  (rounds : list (XY * list XY)) :
  2 <= K ->
  _totalStep (this w) = K ->
  (forall step, 1 <= step <= K - 1 -> _drawStep (this w) = step ->
     let w' := mouseLeftButtonDownForDrawing w in
     (_drawStep (this w') = GRAPHIC_MARK_DRAW_STEP_FINISHED <-> step = K - 1)
     /\ (step <> K - 1 -> _drawStep (this w') = step + 1))
  /\ (_drawStep (this w) = GRAPHIC_MARK_DRAW_STEP_START ->
      _tpPoints (this w) = JsArray.empty ->
      let j := Z.of_nat (List.length rounds) in
      j <= K - 1 ->
      let w' := place ext rounds w in
      JsArray.length (tpPoints w') = j
      /\ (_drawStep (this w') = GRAPHIC_MARK_DRAW_STEP_FINISHED <-> j = K - 1)
      /\ (j < K - 1 -> _drawStep (this w') = j + 1)).
Proof.
  intros HK Htotal. split.
  - intros step Hstep Hdraw w'. unfold w', mouseLeftButtonDownForDrawing.
    rewrite Hdraw, Htotal. unfold GRAPHIC_MARK_DRAW_STEP_FINISHED.
    destruct (step =? K - 1) eqn:E; simpl.
    + apply Z.eqb_eq in E. split; [tauto | congruence].
    + apply Z.eqb_neq in E. split; [split; [lia | congruence] | reflexivity].
  - intros Hstart Hempty j Hj w'.
    destruct (@place_placing K rounds 1 w) as (Hlen & Hdraw);
      try lia; auto.
    { rewrite Hempty. reflexivity. }
    fold w' in Hlen, Hdraw. fold j in Hj.
    replace (1 - 1 + Z.of_nat (List.length rounds)) with j in * by (unfold j; lia).
    rewrite length_tpPoints. split; [exact Hlen|].
    rewrite Hdraw. unfold GRAPHIC_MARK_DRAW_STEP_FINISHED.
    destruct (j =? K - 1) eqn:E.
    + apply Z.eqb_eq in E. split; [tauto | lia].
    + apply Z.eqb_neq in E. split; [split; [unfold j; lia | congruence] | reflexivity].
Qed.

End Placement.

Section Checks.
Import JS GraphicMark Scenario Samples.

(** Witness for C3: the class as written, three steps, two rounds. *)
Lemma placement_monotonicity_witness :
  let rounds := [(px 100 50, [px 101 50]); (px 200 80, [])] in
  let w' := place base rounds (fresh 3) in
  JsArray.length (tpPoints w') = 2
  /\ (_drawStep (this w') = GRAPHIC_MARK_DRAW_STEP_FINISHED <-> 2 = 3 - 1)
  /\ (2 < 3 - 1 -> _drawStep (this w') = 2 + 1).
Proof.
  intros rounds w'.
  refine (proj2 (@placement_monotonicity base _ 3 (fresh 3) rounds _ _) _ _ _);
    try reflexivity; try (vm_compute; congruence).
Defined.
End Checks.

(* ====================================================================== *)
(** * GraphicMark: the two-point scenario *)
(* ====================================================================== *)

Section TwoPoint.
Import JS GraphicMark Scenario Samples.

(** Counterexample for C2 as stated: with [totalStep = 2] the first
    confirming click does not leave the mark in PLACING(2). *)
Lemma two_point_line_with_two_steps_fails : ~ twoPointLine base (fresh 2).
Proof.
  unfold twoPointLine. intros [[H _] _]. vm_compute in H. discriminate H.
Qed.

(** C2 (amended).  For the class as written and a freshly constructed mark
    with [totalStep = 3]: after a move to (100, 50) the first click leaves
    PLACING(2) with the one point derived from (100, 50); a move to
    (200, 80) sets [points[1]] and keeps PLACING(2); the second click gives
    FINISHED with two points.  With [totalStep = 2] the first click already
    gives FINISHED, with the one point. *)
Theorem two_point_line_takes_three_steps
  (onCircle : XY -> Q -> XY -> bool) (h : Heap) (id0 name0 : string)
  (chartData : ChartData) (xAxis yAxis : Axis) :
  let ext := baseExtension onCircle in
  let start := fun totalStep =>
    {| heap := h;
       this := constructor id0 name0 totalStep chartData xAxis yAxis |} in
  twoPointLine ext (start 3)
  /\ (let p1 := {| x := 100; y := 50 |} in
      let w1 := mouseLeftButtonDownForDrawing
                  (mouseMoveForDrawing ext p1 (start 2)) in
      _drawStep (this w1) = GRAPHIC_MARK_DRAW_STEP_FINISHED
      /\ JsArray.items (tpPoints w1) = [Some (derived (this (start 2)) p1)]).
Proof.
  intros ext start. unfold twoPointLine.
  subst ext start.
  repeat split; cbn; change (Pos.to_nat 1) with 1%nat; cbn;
    rewrite ?Nat.eqb_refl; reflexivity.
Qed.
End TwoPoint.

(* ====================================================================== *)
(** * GraphicMark: resolving the pixel column of a point *)
(* ====================================================================== *)

Section Timestamp.
Import JS GraphicMark Scenario.

Variable ext : Extension.

Lemma falsy_timestamp_pointX (m : GraphicMark) (tp : TPPoint) :
  truthyNum (timestamp tp) = false ->
  _timestampOrDataIndexToPointX m tp = convertToPixel (_xAxis m) (dataIndex tp).
Proof.
  unfold _timestampOrDataIndexToPointX. intros H.
  destruct (timestamp tp) as [ts|]; [now rewrite H | reflexivity].
Qed.

Lemma xyPointOf_retarget (f : Q -> Q) (w : World) (tp : TPPoint) :
  truthyNum (timestamp tp) = false ->
  xyPointOf (this (withTimestampToDataIndex f w)) tp = xyPointOf (this w) tp.
Proof.
  intros H. unfold xyPointOf. rewrite !falsy_timestamp_pointX by exact H.
  reflexivity.
Qed.

Lemma checkPlacedPoints_retarget (f : Q -> Q) (w : World) (pt : XY)
  (slots : list (option TPPoint)) :
  (forall tp, In (Some tp) slots -> truthyNum (timestamp tp) = false) ->
  forall i acc,
  checkPlacedPoints ext (this (withTimestampToDataIndex f w)) pt i acc slots =
  checkPlacedPoints ext (this w) pt i acc slots.
Proof.
  induction slots as [|[tp|] rest IH]; intros H i acc; cbn [checkPlacedPoints];
    try reflexivity.
  rewrite xyPointOf_retarget by (apply H; now left).
  change (graphicMark (_chartData (this (withTimestampToDataIndex f w))))
    with (graphicMark (_chartData (this w))).
  destruct (checkPointOnCircle ext _ _ pt); [reflexivity|].
  apply IH. intros tp' Hin. apply H. now right.
Qed.

(** C10.  A point whose timestamp is falsy ([0], or absent) is resolved to
    its pixel column through [dataIndex]; hence, when every placed point
    has a falsy timestamp, neither [draw] nor [checkMousePointOnGraphic]
    depends on how the data store maps timestamps to indices. *)
Theorem falsy_timestamp_is_absent :
  (forall (m : GraphicMark) (tp : TPPoint),
     truthyNum (timestamp tp) = false ->
     _timestampOrDataIndexToPointX m tp
     = convertToPixel (_xAxis m) (dataIndex tp))
  /\ (forall (w : World) (f : Q -> Q) (pt : XY),
        (forall tp, In (Some tp) (JsArray.items (tpPoints w)) ->
                    truthyNum (timestamp tp) = false) ->
        draw ext (withTimestampToDataIndex f w) = draw ext w
        /\ checkMousePointOnGraphic ext pt (withTimestampToDataIndex f w)
           = match checkMousePointOnGraphic ext pt w with
             | Ok (r, w') => Ok (r, withTimestampToDataIndex f w')
             | Throw e => Throw e
             end).
Proof.
  split; [exact falsy_timestamp_pointX|].
  intros w f pt Hfalsy. split.
  - unfold draw.
    assert (Hxy : JsArray.map (xyPointOf (this (withTimestampToDataIndex f w)))
                    (tpPoints (withTimestampToDataIndex f w))
                  = JsArray.map (xyPointOf (this w)) (tpPoints w)).
    { unfold JsArray.map. f_equal.
      change (tpPoints (withTimestampToDataIndex f w)) with (tpPoints w).
      apply map_ext_in. intros [tp|] Hin; [|reflexivity].
      simpl. f_equal. apply xyPointOf_retarget. now apply Hfalsy. }
    cbv zeta. rewrite Hxy. reflexivity.
  - unfold checkMousePointOnGraphic.
    change (tpPoints (withTimestampToDataIndex f w)) with (tpPoints w).
    rewrite checkPlacedPoints_retarget by exact Hfalsy.
    destruct (checkPlacedPoints ext (this w) pt 0 [] (JsArray.items (tpPoints w)))
      as [[[i|] xy]|e]; cbn [bind fst snd]; try reflexivity.
    change (graphicOptionsOf ext (withTimestampToDataIndex f w) (JsArray.of_list xy))
      with (graphicOptionsOf ext w (JsArray.of_list xy)).
    destruct (checkGroups ext pt (graphicOptionsOf ext w (JsArray.of_list xy)));
      reflexivity.
Qed.

End Timestamp.

Section TimestampCheck.
Import JS GraphicMark Scenario Samples.

(** Witness for C10: a point whose timestamp is exactly [0]. *)
Lemma falsy_timestamp_is_absent_witness :
  _timestampOrDataIndexToPointX (this (fresh 3))
    {| timestamp := Some 0%Q; price := 420; dataIndex := 7 |}
  = convertToPixel xAxis 7.
Proof.
  apply (proj1 (falsy_timestamp_is_absent base)). reflexivity.
Defined.
End TimestampCheck.

(* ====================================================================== *)
(** * GraphicMark: hover detection *)
(* ====================================================================== *)

Section Hover.

Import JS GraphicMark Scenario.

Variable ext : Extension.
Variable pt : XY.
Variable w : World.

Lemma checkPlacedPoints_hit (pre : list TPPoint) (tp : TPPoint)
  (post : list (option TPPoint)) :
  (forall q, In q pre -> hits ext w pt q = false) ->
  hits ext w pt tp = true ->
  forall i acc,
  checkPlacedPoints ext (this w) pt i acc (List.map Some pre ++ Some tp :: post)
  = Ok (Some (i + Z.of_nat (List.length pre)),
        acc ++ List.map (xyPointOf (this w)) (pre ++ [tp])).
Proof.
  unfold hits. induction pre as [|q pre IH]; intros Hpre Htp i acc;
    cbn [List.map app checkPlacedPoints List.length].
  - rewrite Htp. now rewrite Z.add_0_r.
  - rewrite (Hpre q) by now left.
    rewrite IH by (auto; intros; apply Hpre; now right).
    rewrite <- app_assoc. cbn [app]. do 2 f_equal. f_equal. lia.
Qed.

Lemma checkPlacedPoints_miss (pts : list TPPoint) :
  (forall q, In q pts -> hits ext w pt q = false) ->
  forall i acc,
  checkPlacedPoints ext (this w) pt i acc (List.map Some pts)
  = Ok (None, acc ++ List.map (xyPointOf (this w)) pts).
Proof.
  unfold hits. induction pts as [|q pts IH]; intros Hpts i acc;
    cbn [List.map checkPlacedPoints].
  - now rewrite app_nil_r.
  - rewrite (Hpts q) by now left.
    rewrite IH by (intros; apply Hpts; now right).
    now rewrite <- app_assoc.
Qed.

(** What an outcome of the first loop says about the slots. *)
Lemma checkPlacedPoints_inv (slots : list (option TPPoint)) :
  forall i acc found xy,
  checkPlacedPoints ext (this w) pt i acc slots = Ok (found, xy) ->
  match found with
  | Some k =>
      exists pre tp post,
        slots = List.map Some pre ++ Some tp :: post
        /\ k = i + Z.of_nat (List.length pre)
        /\ (forall q, In q pre -> hits ext w pt q = false)
        /\ hits ext w pt tp = true
  | None =>
      exists pts,
        slots = List.map Some pts
        /\ (forall q, In q pts -> hits ext w pt q = false)
        /\ xy = acc ++ List.map (xyPointOf (this w)) pts
  end.
Proof.
  induction slots as [|[tp|] rest IH]; intros i acc found xy H;
    cbn [checkPlacedPoints] in H.
  - inversion H; subst. exists []. cbn. rewrite app_nil_r.
    repeat split; auto; try (intros q []).
  - destruct (checkPointOnCircle ext (xyPointOf (this w) tp)
                (radius (point (graphicMark (_chartData (this w))))) pt) eqn:E.
    + inversion H; subst. exists [], tp, rest. cbn.
      repeat split; auto; try lia; try (intros q []).
    + apply IH in H. destruct found as [k|].
      * destruct H as (pre & tp' & post & Hs & Hk & Hpre & Htp).
        exists (tp :: pre), tp', post. cbn [List.map app List.length].
        repeat split; auto.
        -- now rewrite Hs.
        -- lia.
        -- intros q [<-|Hin]; [exact E | now apply Hpre].
      * destruct H as (pts & Hs & Hpts & Hxy).
        exists (tp :: pts). cbn [List.map].
        repeat split; auto.
        -- now rewrite Hs.
        -- intros q [<-|Hin]; [exact E | now apply Hpts].
        -- rewrite Hxy, <- app_assoc. reflexivity.
  - discriminate H.
Qed.

Lemma firstHit_miss (source : list DataItem) :
  (forall item, In item source -> checkMousePointOn ext item pt = false) ->
  forall i, firstHit ext pt i source = None.
Proof.
  induction source as [|item rest IH]; intros H i; cbn [firstHit]; auto.
  rewrite (H item) by now left. apply IH. intros; apply H; now right.
Qed.

Lemma checkGroups_miss (groups : list GraphicOption) :
  (forall g, In g groups -> truthyFlag (isCheck g) = true ->
     forall item, In item (dataSourceOf g) ->
       checkMousePointOn ext item pt = false) ->
  checkGroups ext pt groups = None.
Proof.
  induction groups as [|g rest IH]; intros H; cbn [checkGroups]; auto.
  destruct (truthyFlag (isCheck g)) eqn:E.
  - rewrite firstHit_miss by (apply (H g); auto; now left).
    apply IH. intros; eapply H; eauto. now right.
  - apply IH. intros; eapply H; eauto. now right.
Qed.

(** C6 (amended).  A query never yields both POINT and OTHER.  If slot [i]
    is the first placed point whose hit-circle contains the pixel and every
    slot before it holds a point (and misses), the call returns [true] with
    [hoverType = POINT] and [hoverIndex = i], whatever shapes the hooks
    derive and accept.  Conversely, a call that ends with POINT found such a
    first match at [hoverIndex], and a call that ends with OTHER tested
    every placed point and none matched.  An empty slot before the first
    match is left out: marks placed with a mouse move before every click
    have none ([placed_points_are_filled]). *)
Theorem hover_exclusivity :
  (forall pre tp post,
     JsArray.items (tpPoints w) = List.map Some pre ++ Some tp :: post ->
     (forall q, In q pre -> hits ext w pt q = false) ->
     hits ext w pt tp = true ->
     checkMousePointOnGraphic ext pt w
     = Ok (RetBool true, setHover w POINT (Z.of_nat (List.length pre))))
  /\ (forall r w',
        checkMousePointOnGraphic ext pt w = Ok (r, w') ->
        match _hoverType (this w') with
        | POINT =>
            exists pre tp post,
              JsArray.items (tpPoints w) = List.map Some pre ++ Some tp :: post
              /\ _hoverIndex (this w') = Z.of_nat (List.length pre)
              /\ (forall q, In q pre -> hits ext w pt q = false)
              /\ hits ext w pt tp = true
        | OTHER =>
            forall tp, In (Some tp) (JsArray.items (tpPoints w)) ->
                       hits ext w pt tp = false
        | NONE => True
        end).
Proof.
  split.
  - intros pre tp post Hitems Hpre Htp. unfold checkMousePointOnGraphic.
    rewrite Hitems, (@checkPlacedPoints_hit pre tp post Hpre Htp). reflexivity.
  - intros r w' H. unfold checkMousePointOnGraphic in H.
    destruct (checkPlacedPoints ext (this w) pt 0 [] (JsArray.items (tpPoints w)))
      as [[found xy]|e] eqn:E; cbn [bind fst snd] in H; [|discriminate H].
    apply checkPlacedPoints_inv in E. destruct found as [k|].
    + inversion H; subst.
      cbn [this setHover with_hover _hoverType _hoverIndex].
      destruct E as (pre & tp & post & Hs & Hk & Hpre & Htp).
      exists pre, tp, post. repeat split; auto.
    + destruct E as (pts & Hs & Hpts & _).
      destruct (checkGroups ext pt (graphicOptionsOf ext w (JsArray.of_list xy)));
        inversion H; subst;
        cbn [this setHover with_hover _hoverType resetHoverParams]; auto.
      intros tp Hin. apply Hpts. rewrite Hs in Hin.
      apply in_map_iff in Hin. destruct Hin as (q & Hq & Hin). congruence.
Qed.

(** C8 (amended).  When the points array has no empty slot, every placed
    point misses and no checked derived shape accepts the pixel, the call
    falls off the end: it returns [undefined] (not [true], and falsy) after
    [resetHoverParams], which leaves [hoverType = NONE] and
    [hoverIndex = -1].  Every call that completes either returned [true] on
    a match path (POINT or OTHER) or returned nothing on that reset path. *)
Theorem no_match_resets_and_returns_nothing :
  (forall pts,
     JsArray.items (tpPoints w) = List.map Some pts ->
     (forall q, In q pts -> hits ext w pt q = false) ->
     (forall g,
        In g (graphicOptionsOf ext w
                (JsArray.of_list (List.map (xyPointOf (this w)) pts))) ->
        truthyFlag (isCheck g) = true ->
        forall item, In item (dataSourceOf g) ->
          checkMousePointOn ext item pt = false) ->
     checkMousePointOnGraphic ext pt w = Ok (RetUndefined, resetHoverParams w)
     /\ _hoverType (this (resetHoverParams w)) = NONE
     /\ _hoverIndex (this (resetHoverParams w)) = -1
     /\ RetUndefined <> RetBool true
     /\ truthyRet RetUndefined = false)
  /\ (forall r w',
        checkMousePointOnGraphic ext pt w = Ok (r, w') ->
        (r = RetBool true
         /\ (_hoverType (this w') = POINT \/ _hoverType (this w') = OTHER))
        \/ (r = RetUndefined /\ w' = resetHoverParams w)).
Proof.
  split.
  - intros pts Hitems Hpts Hgroups. unfold checkMousePointOnGraphic.
    rewrite Hitems, (@checkPlacedPoints_miss pts Hpts). cbn [bind fst snd app].
    rewrite (@checkGroups_miss _ Hgroups).
    repeat split; auto. discriminate.
  - intros r w' H. unfold checkMousePointOnGraphic in H.
    destruct (checkPlacedPoints ext (this w) pt 0 [] (JsArray.items (tpPoints w)))
      as [[[k|] xy]|e]; cbn [bind fst snd] in H; [| |discriminate H].
    + inversion H; subst. left. cbn. auto.
    + destruct (checkGroups ext pt (graphicOptionsOf ext w (JsArray.of_list xy)));
        inversion H; subst; [left | right]; cbn; auto.
Qed.

End Hover.



(* ====================================================================== *)
(** * GraphicMark: dragging a point *)
(* ====================================================================== *)

Section Drag.

Import JS GraphicMark Scenario.

Lemma assoc_map (A B : Type) (f : A -> B) (k : Z) (l : list (Z * A)) :
  JsArray.assoc k (List.map (fun kv => (fst kv, f (snd kv))) l)
  = option_map f (JsArray.assoc k l).
Proof.
  induction l as [|[k' v] l IH]; cbn; auto.
  destruct (k =? k'); auto.
Qed.

(** Reading [points[j]] follows the reference stored at key [j]. *)
Lemma get_tpPoints (w : World) (j : Z) :
  JsArray.get (tpPoints w) j
  = option_map (cell (heap w)) (JsArray.get (_tpPoints (this w)) j).
Proof.
  unfold JsArray.get, tpPoints. cbn [JsArray.items JsArray.others].
  destruct (j <? 0).
  - apply assoc_map.
  - rewrite nth_error_map.
    destruct (nth_error (JsArray.items (_tpPoints (this w))) (Z.to_nat j))
      as [[l|]|]; reflexivity.
Qed.

Lemma cell_write_eq (h : Heap) (l : loc) (o : TPPoint) : cell (write h l o) l = o.
Proof. unfold write. cbn. now rewrite Nat.eqb_refl. Qed.

Lemma cell_write_ne (h : Heap) (l l' : loc) (o : TPPoint) :
  l' <> l -> cell (write h l o) l' = cell h l'.
Proof.
  intros H. unfold write. cbn.
  destruct (Nat.eqb l' l) eqn:E; [apply Nat.eqb_eq in E; congruence | reflexivity].
Qed.

Variable ext : Extension.

(** C7.  For an extension whose [performMousePressedMove] hook leaves the
    points and the step alone (the class's empty hook does), and a points
    array without shared references: with [hoverType = POINT] and a
    [hoverIndex] that holds a point, [mousePressedMove] overwrites that
    point with the values derived from the pixel, leaves the point under
    every other key as it was and keeps [drawStep]; with another hover type
    or [hoverIndex = -1] it returns the world unchanged. *)
Theorem drag_moves_only_the_hovered_point (pt : XY) (w : World) :
  (forall i tp w0,
     tpPoints (performMousePressedMove ext i tp w0) = tpPoints w0
     /\ _drawStep (this (performMousePressedMove ext i tp w0))
        = _drawStep (this w0)) ->
  (forall i j l,
     JsArray.get (_tpPoints (this w)) i = Some l ->
     JsArray.get (_tpPoints (this w)) j = Some l -> i = j) ->
  (_hoverType (this w) = POINT ->
   _hoverIndex (this w) <> -1 ->
   forall old, JsArray.get (tpPoints w) (_hoverIndex (this w)) = Some old ->
   exists w',
     mousePressedMove ext pt w = Ok w'
     /\ JsArray.get (tpPoints w') (_hoverIndex (this w))
        = Some (derived (this w) pt)
     /\ (forall j, j <> _hoverIndex (this w) ->
           JsArray.get (tpPoints w') j = JsArray.get (tpPoints w) j)
     /\ _drawStep (this w') = _drawStep (this w))
  /\ (_hoverType (this w) <> POINT \/ _hoverIndex (this w) = -1 ->
      mousePressedMove ext pt w = Ok w).
Proof.
  intros Hhook Hdistinct. split.
  - intros Hpoint Hindex old Hold.
    rewrite get_tpPoints in Hold.
    destruct (JsArray.get (_tpPoints (this w)) (_hoverIndex (this w)))
      as [l|] eqn:Hl; [|discriminate Hold].
    unfold mousePressedMove. rewrite Hpoint, Hl.
    replace (_hoverIndex (this w) =? -1) with false
      by (symmetry; now apply Z.eqb_neq).
    cbn [HoverType_eqb negb andb].
    eexists. split; [reflexivity|].
    match goal with
    | |- context [performMousePressedMove ext ?i ?tp ?w0] =>
        destruct (Hhook i tp w0) as (Hpts & Hstep)
    end.
    rewrite Hpts, Hstep. cbn [this].
    repeat split.
    + rewrite get_tpPoints. cbn [heap this]. rewrite Hl. cbn [option_map].
      rewrite !cell_write_eq. reflexivity.
    + intros j Hj. rewrite !get_tpPoints. cbn [heap this].
      destruct (JsArray.get (_tpPoints (this w)) j) as [l'|] eqn:Hl';
        [|reflexivity].
      cbn [option_map]. f_equal.
      assert (l' <> l) by (intros ->; apply Hj; eapply Hdistinct; eauto).
      now rewrite !cell_write_ne.
  - intros H. unfold mousePressedMove.
    destruct H as [H|H].
    + destruct (_hoverType (this w)); try congruence; reflexivity.
    + rewrite H. now rewrite andb_false_r.
Qed.

End Drag.

(* ====================================================================== *)
(** * GraphicMark: the points array never shares a point *)
(* ====================================================================== *)

Section WellFormed.

Import JS GraphicMark Scenario.

Lemma wellFormed_same (w w' : World) :
  _tpPoints (this w') = _tpPoints (this w) ->
  next (heap w') = next (heap w) ->
  wellFormed w -> wellFormed w'.
Proof.
  intros Ha Hn [Hd Hb]. unfold wellFormed. rewrite Ha, Hn. auto.
Qed.

Lemma wellFormed_move (onCircle : XY -> Q -> XY -> bool) (pt : XY) (w : World) :
  wellFormed w -> wellFormed (mouseMoveForDrawing (baseExtension onCircle) pt w).
Proof.
  intros [Hd Hb]. unfold mouseMoveForDrawing, wellFormed.
  cbn [alloc baseExtension performMouseMoveForDrawing this heap with_tpPoints
       _tpPoints next].
  set (k := _drawStep (this w) - 1).
  assert (Hfresh : forall j, JsArray.get (_tpPoints (this w)) j
                             <> Some (next (heap w))).
  { intros j Hj. apply Hb in Hj. lia. }
  split.
  - intros i j l Hi Hj.
    destruct (Z.eq_dec k i) as [<-|Hki], (Z.eq_dec k j) as [<-|Hkj]; auto.
    + rewrite get_set_eq in Hi. rewrite get_set_ne in Hj by auto.
      inversion Hi; subst. now apply Hfresh in Hj.
    + rewrite get_set_eq in Hj. rewrite get_set_ne in Hi by auto.
      inversion Hj; subst. now apply Hfresh in Hi.
    + rewrite get_set_ne in Hi, Hj by auto. eauto.
  - intros i l Hi. destruct (Z.eq_dec k i) as [<-|Hki].
    + rewrite get_set_eq in Hi. inversion Hi. lia.
    + rewrite get_set_ne in Hi by auto. apply Hb in Hi. lia.
Qed.

(** The class as written never makes two slots share a point object. *)
Lemma reachable_wellFormed (onCircle : XY -> Q -> XY -> bool) (w : World) :
  reachable onCircle w -> wellFormed w.
Proof.
  induction 1 as [h id0 name0 K cd xa ya | pt w _ IH | w _ IH
                 | pt w w' r _ IH Hc | pt w w' _ IH Hd | w _ IH].
  - split; intros i; intros; unfold JsArray.get in *; cbn in *;
      destruct (i <? 0); try discriminate;
      destruct (Z.to_nat i); discriminate.
  - now apply wellFormed_move.
  - revert IH. apply wellFormed_same;
      unfold mouseLeftButtonDownForDrawing;
      destruct (_drawStep (this w) =? _totalStep (this w) - 1); reflexivity.
  - revert IH. unfold checkMousePointOnGraphic in Hc.
    destruct (checkPlacedPoints _ _ _ _ _ _) as [[[k|] xy]|e];
      cbn [bind fst snd] in Hc; try discriminate Hc.
    + inversion Hc; subst. now apply wellFormed_same.
    + destruct (checkGroups _ _ _); inversion Hc; subst;
        now apply wellFormed_same.
  - revert IH. unfold mousePressedMove in Hd.
    destruct (HoverType_eqb _ _ && _).
    + destruct (JsArray.get _ _); inversion Hd; subst.
      now apply wellFormed_same.
    + inversion Hd; subst. auto.
  - revert IH. now apply wellFormed_same.
Qed.

End WellFormed.

Section HoverChecks.

Import JS GraphicMark Scenario Samples.

Lemma segmentPlaced_reachable : reachable onCircle (segmentPlaced base).
Proof.
  unfold segmentPlaced, place, confirm, moves. cbn [fold_left fst snd].
  repeat (apply reach_click || apply reach_move). apply reach_new.
Qed.

(** Witness for C6: the pixel (201, 81) is within the circle of the second
    point, and the variant's shape test would accept it too. *)
Lemma hover_exclusivity_witness :
  checkMousePointOnGraphic greedy (px 201 81) (segmentPlaced greedy)
  = Ok (RetBool true, setHover (segmentPlaced greedy) POINT 1).
Proof.
  apply (proj1 (hover_exclusivity greedy (px 201 81) (segmentPlaced greedy))
           [derived (this (fresh 3)) (px 101 50)]
           (derived (this (fresh 3)) (px 200 80)) []).
  - vm_compute. reflexivity.
  - intros q [<-|[]]. vm_compute. reflexivity.
  - vm_compute. reflexivity.
Defined.

(** Witness for C8: the pixel (400, 300) is far from both points and the
    class as written derives no shape. *)
Lemma no_match_witness :
  checkMousePointOnGraphic base (px 400 300) (segmentPlaced base)
  = Ok (RetUndefined, resetHoverParams (segmentPlaced base))
  /\ _hoverType (this (resetHoverParams (segmentPlaced base))) = NONE
  /\ _hoverIndex (this (resetHoverParams (segmentPlaced base))) = -1
  /\ RetUndefined <> RetBool true
  /\ truthyRet RetUndefined = false.
Proof.
  apply (proj1 (no_match_resets_and_returns_nothing base (px 400 300)
                  (segmentPlaced base))
           [derived (this (fresh 3)) (px 101 50);
            derived (this (fresh 3)) (px 200 80)]).
  - vm_compute. reflexivity.
  - intros q [<-|[<-|[]]]; vm_compute; reflexivity.
  - intros g [].
Defined.

(** Witness for C7: the first point of the segment is hovered and dragged
    to (150, 60). *)
Lemma drag_witness :
  let w := setHover (segmentPlaced base) POINT 0 in
  exists w',
    mousePressedMove base (px 150 60) w = Ok w'
    /\ JsArray.get (tpPoints w') 0 = Some (derived (this w) (px 150 60))
    /\ (forall j, j <> 0 ->
          JsArray.get (tpPoints w') j = JsArray.get (tpPoints w) j)
    /\ _drawStep (this w') = _drawStep (this w).
Proof.
  intros w.
  refine (proj1 (@drag_moves_only_the_hovered_point base (px 150 60) w _ _)
            _ _ (derived (this (fresh 3)) (px 101 50)) _).
  - intros i tp w0. split; reflexivity.
  - apply (reachable_wellFormed segmentPlaced_reachable).
  - reflexivity.
  - vm_compute. discriminate.
  - vm_compute. reflexivity.
Defined.

Lemma firstSlotEmpty_reachable : reachable onCircle firstSlotEmpty.
Proof.
  unfold firstSlotEmpty.
  apply reach_click, reach_move, reach_click, reach_new.
Qed.

Lemma firstSlotEmpty_points :
  tpPoints firstSlotEmpty
  = JsArray.mk [None; Some (derived (this (fresh 3)) (px 200 80))] [].
Proof. vm_compute. reflexivity. Qed.

(** The only slot of that mark that holds a point is slot 1. *)
Lemma firstSlotEmpty_get (i : Z) (tp : TPPoint) :
  JsArray.get (tpPoints firstSlotEmpty) i = Some tp ->
  i = 1 /\ tp = derived (this (fresh 3)) (px 200 80).
Proof.
  rewrite firstSlotEmpty_points. unfold JsArray.get.
  cbn [JsArray.items JsArray.others JsArray.assoc].
  destruct (i <? 0) eqn:E; [discriminate|]. apply Z.ltb_ge in E.
  destruct (Z.to_nat i) as [|[|n]] eqn:En; cbn [nth_error].
  - discriminate.
  - intros H. inversion H. split; [lia | reflexivity].
  - destruct n; discriminate.
Qed.

(** Counterexample for C6 as stated: the pixel (200, 80) is the centre of
    the only placed point of that mark, which is therefore the first whose
    hit-circle contains it, and the query throws on the empty slot before
    it instead of reporting POINT. *)
Lemma first_point_wins_fails_on_an_empty_slot :
  ~ firstPointWins base (px 200 80) firstSlotEmpty.
Proof.
  intros H.
  specialize (H 1 (derived (this (fresh 3)) (px 200 80))).
  assert (Hthrow : checkMousePointOnGraphic base (px 200 80) firstSlotEmpty
                   = Throw TypeError) by (vm_compute; reflexivity).
  rewrite Hthrow in H. discriminate H.
  - rewrite firstSlotEmpty_points. reflexivity.
  - vm_compute. reflexivity.
  - intros j q Hj Hlt. apply firstSlotEmpty_get in Hj. lia.
Qed.

(** Counterexample for C8 as stated: the pixel (400, 300) is far from the
    only placed point of that mark and the class as written derives no
    shape, and the query throws on the empty slot instead of resetting the
    hover fields and returning. *)
Lemma no_match_rule_fails_on_an_empty_slot :
  ~ noMatchResets base (px 400 300) firstSlotEmpty.
Proof.
  intros H. unfold noMatchResets in H.
  assert (Hthrow : checkMousePointOnGraphic base (px 400 300) firstSlotEmpty
                   = Throw TypeError) by (vm_compute; reflexivity).
  rewrite Hthrow in H. discriminate H.
  - intros i tp Hi. apply firstSlotEmpty_get in Hi. destruct Hi as [_ ->].
    vm_compute. reflexivity.
  - intros xyPoints g [].
Qed.

(** A click that no mouse move preceded leaves a hole behind once the next
    point is tracked, and the hover query then throws on it. *)
Example hover_check_throws_on_a_hole :
  let w := mouseMoveForDrawing base (px 200 80)
             (mouseLeftButtonDownForDrawing (fresh 3)) in
  JsArray.items (tpPoints w) = [None; Some (derived (this w) (px 200 80))]
  /\ checkMousePointOnGraphic base (px 200 80) w = Throw TypeError.
Proof. split; vm_compute; reflexivity. Qed.

End HoverChecks.

(* ====================================================================== *)
(** * GraphicMark: drawing the groups *)
(* ====================================================================== *)

Section DrawDispatch.

Import JS GraphicMark Scenario Samples.

(** What [draw] does with a group, whatever its tag: only the line
    renderer is ever chosen. *)
Lemma drawGroup_cases (markOptions : MarkOptions) (g : GraphicOption) :
  drawGroup markOptions g = _drawLines (dataSourceOf g) markOptions
  \/ drawGroup markOptions g = emit [].
Proof.
  unfold drawGroup.
  destruct (negb (isValid (isDraw g)) || truthyFlag (isDraw g)); auto.
  destruct (String.eqb (type g) LINE); auto.
  destruct (String.eqb (type g) TEXT); auto.
Qed.

Lemma andThen_ops (P : CtxOp -> Prop) (d1 d2 : Drawing) :
  Forall P (fst d1) -> Forall P (fst d2) -> Forall P (fst (andThen d1 d2)).
Proof.
  intros H1 H2. unfold andThen. destruct (snd d1); cbn [fst]; auto.
  apply Forall_app. auto.
Qed.

Lemma forEach_ops (A : Type) (P : CtxOp -> Prop) (f : A -> Drawing)
  (l : list A) :
  (forall a, Forall P (fst (f a))) -> Forall P (fst (forEach f l)).
Proof.
  intros H. induction l as [|a l IH]; cbn [forEach].
  - constructor.
  - apply andThen_ops; auto.
Qed.

Lemma drawLine_no_text (item : DataItem) :
  Forall (fun op => isFillText op = false) (fst (drawLine item)).
Proof.
  unfold drawLine.
  destruct (itemAt item 0) as [p0|], (itemAt item 1) as [p1|];
    try (constructor; fail).
  destruct (getLineType p0 p1); repeat constructor.
Qed.

(** No group makes [draw]'s dispatch call [fillText], whatever its tag. *)
Lemma drawGroup_no_text (markOptions : MarkOptions) (g : GraphicOption) :
  Forall (fun op => isFillText op = false) (fst (drawGroup markOptions g)).
Proof.
  destruct (drawGroup_cases markOptions g) as [-> | ->]; [|constructor].
  unfold _drawLines. apply andThen_ops.
  - repeat constructor.
  - apply forEach_ops. exact drawLine_no_text.
Qed.

(** C1: [draw] hands a TEXT group to [_drawLines], so its dispatch never
    calls [fillText], whatever the group.  At a mark past the initial state
    with one placed point and one TEXT group, [draw] sets the stroke style
    and then throws on the label; [_drawText] on the same group would have
    filled the text. *)
Theorem draw_text_group_uses_line_renderer :
  (forall markOptions g,
     (drawGroup markOptions g = _drawLines (dataSourceOf g) markOptions
      \/ drawGroup markOptions g = emit [])
     /\ Forall (fun op => isFillText op = false)
          (fst (drawGroup markOptions g)))
  /\ (let w := mouseLeftButtonDownForDrawing
                 (mouseMoveForDrawing labelled (px 100 50) (fresh 3)) in
      _drawStep (this w) = 2
      /\ JsArray.length (tpPoints w) = 1
      /\ graphicOptionsOf labelled w
           (JsArray.map (xyPointOf (this w)) (tpPoints w))
         = [{| type := TEXT; isDraw := None; isCheck := None;
               dataSource := Some [Label 10 20 "0.618"] |}]
      /\ draw labelled w
         = ([SetStrokeStyle "#2196F3"; SetLineWidth 1], Some TypeError)
      /\ _drawText [Label 10 20 "0.618"] markOptions
         = ([SetFont "normal" 12 "Helvetica"; SetFillStyle "#2196F3";
             FillText "0.618" (10 + 2)%Q (20 - 6)%Q], None)).
Proof.
  split.
  - intros markOptions g. split.
    + apply drawGroup_cases.
    + apply drawGroup_no_text.
  - repeat split; vm_compute; reflexivity.
Qed.

End DrawDispatch.

(* ====================================================================== *)
(** * DrawWidget: coalescing of redraw requests *)
(* ====================================================================== *)

Section Coalescing.

Import DrawWidget WidgetScenario.

Lemma optimalUpdate_pending (u : Update) (w : World) :
  coalesced w ->
  pending (frames (_optimalUpdate u w)) = [(nextHandle (frames w), u)]
  /\ _requestAnimationId (_optimalUpdate u w) = nextHandle (frames w)
  /\ nextHandle (frames (_optimalUpdate u w)) = nextHandle (frames w) + 1
  /\ executed (_optimalUpdate u w) = executed w
  /\ container (_optimalUpdate u w) = container w.
Proof.
  intros [Hn Hp]. unfold _optimalUpdate.
  destruct (_requestAnimationId w =? DEFAULT_REQUEST_ID) eqn:E;
    cbn [negb].
  - apply Z.eqb_eq in E. destruct Hp as [Hp|[Hne _]]; [|congruence].
    cbn. rewrite Hp. auto.
  - cbn. destruct Hp as [Hp|[_ [u0 Hp]]]; rewrite Hp; cbn.
    + auto.
    + rewrite Z.eqb_refl. cbn. auto.
Qed.

Lemma updateImp_pending (level : UpdateLevel) (b : Bounding) (w : World) :
  coalesced w ->
  let w' := updateImp level b w in
  pending (frames w')
  = [(nextHandle (frames w),
      dispatch (if sizeFlag b (container w) then DRAWER else level))]
  /\ _requestAnimationId w' = nextHandle (frames w)
  /\ nextHandle (frames w') = nextHandle (frames w) + 1
  /\ executed w' = executed w.
Proof.
  intros Hc w'. unfold w', updateImp.
  change (sizeFlag b (container (with_container w _)))
    with (sizeFlag b (container w)).
  destruct (sizeFlag b (container w));
    match goal with
    | |- context [_optimalUpdate ?u ?w0] =>
        destruct (@optimalUpdate_pending u w0) as (H1 & H2 & H3 & H4 & _);
          [exact Hc|]
    end; auto.
Qed.

Lemma updateImp_coalesced (level : UpdateLevel) (b : Bounding) (w : World) :
  coalesced w -> coalesced (updateImp level b w).
Proof.
  intros Hc. destruct (updateImp_pending level b Hc) as (H1 & H2 & H3 & _).
  destruct Hc as [Hn _]. split; [lia|]. right. rewrite H2. split.
  - unfold DEFAULT_REQUEST_ID. lia.
  - eexists. exact H1.
Qed.

Lemma fireFrame_coalesced (w : World) : coalesced w -> coalesced (fireFrame w).
Proof. intros [Hn _]. split; [exact Hn | now left]. Qed.

Lemma updates_app (l1 l2 : list (UpdateLevel * Bounding)) (w : World) :
  updates (l1 ++ l2) w = updates l2 (updates l1 w).
Proof.
  revert w. induction l1 as [|[level b] l1 IH]; intros w; cbn; auto.
Qed.

Lemma updates_coalesced (l : list (UpdateLevel * Bounding)) (w : World) :
  coalesced w ->
  coalesced (updates l w)
  /\ executed (updates l w) = executed w
  /\ (List.length (pending (frames (updates l w))) <= 1)%nat.
Proof.
  revert w. induction l as [|[level b] l IH]; intros w Hc; cbn [updates].
  - split; [exact Hc | split; [reflexivity|]].
    destruct Hc as [_ [Hp|[_ [u Hp]]]]; rewrite Hp; cbn; lia.
  - destruct (IH (updateImp level b w)) as (H1 & H2 & H3).
    { now apply updateImp_coalesced. }
    split; [exact H1 | split; [|exact H3]]. rewrite H2.
    now destruct (updateImp_pending level b Hc) as (_ & _ & _ & He).
Qed.

Lemma sizeFlag_false (b : Bounding) (c : Container) :
  sizeFlag b c = false ->
  container_offsetWidth c = bounding_width b
  /\ container_offsetHeight c = bounding_height b.
Proof.
  unfold sizeFlag. intros H. apply orb_false_elim in H. destruct H as [H1 H2].
  apply negb_false_iff, Z.eqb_eq in H1. apply negb_false_iff, Z.eqb_eq in H2.
  auto.
Qed.

Lemma optimalUpdate_container (u : Update) (w : World) :
  container (_optimalUpdate u w) = container w.
Proof.
  unfold _optimalUpdate.
  destruct (negb (_requestAnimationId w =? DEFAULT_REQUEST_ID)); reflexivity.
Qed.

(** After any call the container has the size that was asked for. *)
Lemma updateImp_container (level : UpdateLevel) (b : Bounding) (w : World) :
  container_offsetWidth (container (updateImp level b w)) = bounding_width b
  /\ container_offsetHeight (container (updateImp level b w))
     = bounding_height b.
Proof.
  unfold updateImp.
  change (sizeFlag b (container (with_container w _)))
    with (sizeFlag b (container w)).
  destruct (sizeFlag b (container w)) eqn:E;
    rewrite optimalUpdate_container; cbn.
  - auto.
  - now apply sizeFlag_false.
Qed.

(** The container's size after a run of calls is the one the last of them
    asked for. *)
Lemma updates_size (requests : list (UpdateLevel * Bounding)) (w : World) :
  (container_offsetWidth (container (updates requests w)),
   container_offsetHeight (container (updates requests w)))
  = match rev requests with
    | (_, previous) :: _ => (bounding_width previous, bounding_height previous)
    | [] => (container_offsetWidth (container w),
             container_offsetHeight (container w))
    end.
Proof.
  destruct requests as [|r requests] using rev_ind; [reflexivity|].
  rewrite rev_app_distr, updates_app. destruct r as [level b]. cbn [rev app updates].
  destruct (updateImp_container level b (updates requests w)) as [Hw Hh].
  now rewrite Hw, Hh.
Qed.

(** C4.  From a widget whose frame queue is coalesced, after any number of
    [updateImp] calls with no frame fired in between: at every point of
    the sequence at most one request is pending; after the last call the
    one pending request is the widget's remembered handle; firing the frame
    runs exactly one callback, the one of the last call: both canvases when
    the last call's bounding differs in width or height from the size the
    call before it asked for (from the container's size when it is the
    only call), and otherwise the main canvas for MAIN, the overlay for
    OVERLAY and both for DRAWER and ALL. *)
Theorem updates_coalesce_into_one_redraw
  (w : World) (requests : list (UpdateLevel * Bounding))
  (level : UpdateLevel) (bounding : Bounding) :
  coalesced w ->
  let calls := requests ++ [(level, bounding)] in
  let size :=
    match rev requests with
    | (_, previous) :: _ => (bounding_width previous, bounding_height previous)
    | [] => (container_offsetWidth (container w),
             container_offsetHeight (container w))
    end in
  let resized :=
    negb (bounding_width bounding =? fst size)
    || negb (bounding_height bounding =? snd size) in
  let redraw :=
    if resized then UpdateBoth
    else match level with
         | MAIN => UpdateMain
         | OVERLAY => UpdateOverlay
         | DRAWER | ALL => UpdateBoth
         end in
  (forall k, (List.length (pending (frames (updates (firstn k calls) w))) <= 1)%nat)
  /\ (exists handle,
        pending (frames (updates calls w)) = [(handle, redraw)]
        /\ _requestAnimationId (updates calls w) = handle)
  /\ executed (fireFrame (updates calls w)) = executed w ++ [redraw]
  /\ body redraw
     = (if resized then [RedrawMain; RedrawOverlay]
        else match level with
             | MAIN => [RedrawMain]
             | OVERLAY => [RedrawOverlay]
             | DRAWER | ALL => [RedrawMain; RedrawOverlay]
             end)
  /\ pending (frames (fireFrame (updates calls w))) = [].
Proof.
  intros Hc calls size resized redraw.
  set (before := updates requests w).
  destruct (updates_coalesced requests Hc) as (Hb & He & _). fold before in Hb, He.
  assert (Hlast : updates calls w = updateImp level bounding before).
  { unfold calls. rewrite updates_app. reflexivity. }
  assert (Hredraw :
    dispatch (if sizeFlag bounding (container before) then DRAWER else level)
    = redraw).
  { pose proof (updates_size requests w) as Hs. fold before size in Hs.
    unfold redraw, resized, sizeFlag. rewrite <- Hs. cbn [fst snd].
    destruct (negb (bounding_width bounding
                    =? container_offsetWidth (container before))
              || negb (bounding_height bounding
                       =? container_offsetHeight (container before)));
      [reflexivity | destruct level; reflexivity]. }
  destruct (updateImp_pending level bounding Hb) as (H1 & H2 & _ & H4).
  rewrite Hredraw in H1.
  split; [|split; [|split; [|split]]].
  - intros k. now apply updates_coalesced.
  - rewrite Hlast. eexists. split; [exact H1 | exact H2].
  - rewrite Hlast. unfold fireFrame. cbn [executed frames pending].
    rewrite H1, H4, He. reflexivity.
  - unfold redraw. destruct resized; [reflexivity | destruct level; reflexivity].
  - reflexivity.
Qed.

End Coalescing.

(* ====================================================================== *)
(** * DrawWidget: resizing *)
(* ====================================================================== *)

Section Resize.

Import DrawWidget WidgetScenario WidgetSamples.

Lemma optimalUpdate_frame (u : Update) (w : World) :
  let w' := _optimalUpdate u w in
  _mainCanvas w' = _mainCanvas w
  /\ _overlayCanvas w' = _overlayCanvas w
  /\ container w' = container w
  /\ exists cancelled,
       pending (frames w') = cancelled ++ [(_requestAnimationId w', u)].
Proof.
  unfold _optimalUpdate.
  destruct (negb (_requestAnimationId w =? DEFAULT_REQUEST_ID)); cbn;
    repeat split; eexists; reflexivity.
Qed.

(** The size test of [updateImp], read as a proposition. *)
Lemma sizeFlag_true (b : Bounding) (c : Container) :
  sizeFlag b c = true <->
  bounding_width b <> container_offsetWidth c
  \/ bounding_height b <> container_offsetHeight c.
Proof.
  unfold sizeFlag. rewrite orb_true_iff, !negb_true_iff, !Z.eqb_neq. tauto.
Qed.

(** C5.  When the bounding's width or height differs from the container's
    laid-out size, [updateImp] clears both canvases, sets both backing
    stores to [Math.floor(size * pixelRatio)] (the product being the
    rounded one of the engine's numbers) and both CSS sizes to the logical
    size, scales both contexts by the pixel ratio and schedules the redraw
    of both canvases, whatever level was asked for.  When both are equal it
    clears only the canvases of the requested level, resizes and scales
    nothing and schedules the redraw of that level. *)
Theorem resize_forces_full_redraw
  (level : UpdateLevel) (bounding : Bounding) (w : World) :
  let w' := updateImp level bounding w in
  let ratio := devicePixelRatio w in
  let clear := fun c : Canvas =>
    ClearRect 0 0 (offsetWidth c) (offsetHeight c) in
  let scheduled := fun u : Update =>
    exists cancelled,
      pending (frames w') = cancelled ++ [(_requestAnimationId w', u)] in
  (bounding_width bounding <> container_offsetWidth (container w)
   \/ bounding_height bounding <> container_offsetHeight (container w) ->
   calls (_mainCanvas w')
   = calls (_mainCanvas w) ++ [clear (_mainCanvas w); Scale ratio ratio]
   /\ calls (_overlayCanvas w')
      = calls (_overlayCanvas w) ++ [clear (_overlayCanvas w); Scale ratio ratio]
   /\ (width (_mainCanvas w')
       = JS.Math_floor (JS.times (JS.ofInt (bounding_width bounding)) ratio)
       /\ height (_mainCanvas w')
          = JS.Math_floor (JS.times (JS.ofInt (bounding_height bounding)) ratio)
       /\ width (_overlayCanvas w')
          = JS.Math_floor (JS.times (JS.ofInt (bounding_width bounding)) ratio)
       /\ height (_overlayCanvas w')
          = JS.Math_floor (JS.times (JS.ofInt (bounding_height bounding)) ratio))
   /\ (offsetWidth (_mainCanvas w') = bounding_width bounding
       /\ offsetHeight (_mainCanvas w') = bounding_height bounding
       /\ offsetWidth (_overlayCanvas w') = bounding_width bounding
       /\ offsetHeight (_overlayCanvas w') = bounding_height bounding)
   /\ scheduled UpdateBoth
   /\ body UpdateBoth = [RedrawMain; RedrawOverlay])
  /\ (bounding_width bounding = container_offsetWidth (container w)
      /\ bounding_height bounding = container_offsetHeight (container w) ->
      calls (_mainCanvas w')
      = calls (_mainCanvas w)
        ++ match level with
           | OVERLAY => []
           | MAIN | DRAWER | ALL => [clear (_mainCanvas w)]
           end
      /\ calls (_overlayCanvas w')
         = calls (_overlayCanvas w)
           ++ match level with
              | MAIN => []
              | OVERLAY | DRAWER | ALL => [clear (_overlayCanvas w)]
              end
      /\ (width (_mainCanvas w') = width (_mainCanvas w)
          /\ height (_mainCanvas w') = height (_mainCanvas w)
          /\ width (_overlayCanvas w') = width (_overlayCanvas w)
          /\ height (_overlayCanvas w') = height (_overlayCanvas w))
      /\ (offsetWidth (_mainCanvas w') = offsetWidth (_mainCanvas w)
          /\ offsetHeight (_mainCanvas w') = offsetHeight (_mainCanvas w)
          /\ offsetWidth (_overlayCanvas w') = offsetWidth (_overlayCanvas w)
          /\ offsetHeight (_overlayCanvas w') = offsetHeight (_overlayCanvas w))
      /\ scheduled (match level with
                    | MAIN => UpdateMain
                    | OVERLAY => UpdateOverlay
                    | DRAWER | ALL => UpdateBoth
                    end)
      /\ body (match level with
               | MAIN => UpdateMain
               | OVERLAY => UpdateOverlay
               | DRAWER | ALL => UpdateBoth
               end)
         = match level with
           | MAIN => [RedrawMain]
           | OVERLAY => [RedrawOverlay]
           | DRAWER | ALL => [RedrawMain; RedrawOverlay]
           end).
Proof.
  intros w' ratio clear scheduled.
  assert (Hcases :
    if sizeFlag bounding (container w)
    then bounding_width bounding <> container_offsetWidth (container w)
         \/ bounding_height bounding <> container_offsetHeight (container w)
    else bounding_width bounding = container_offsetWidth (container w)
         /\ bounding_height bounding = container_offsetHeight (container w)).
  { destruct (sizeFlag bounding (container w)) eqn:E.
    - now apply sizeFlag_true.
    - apply sizeFlag_false in E. destruct E. auto. }
  unfold scheduled, w', updateImp.
  change (sizeFlag bounding (container (with_container w _)))
    with (sizeFlag bounding (container w)).
  destruct (sizeFlag bounding (container w));
    match goal with
    | |- context [_optimalUpdate ?u ?w0] =>
        destruct (@optimalUpdate_frame u w0) as (Hm & Ho & _ & Hp);
        rewrite Hm, Ho
    end.
  - split; [intros _ | intros [Hw Hh]; destruct Hcases; congruence].
    cbn. rewrite <- !app_assoc. repeat split; auto.
  - split; [intros [Hw|Hh]; destruct Hcases; congruence | intros _].
    destruct level; cbn; rewrite ?app_nil_r; repeat split; auto.
Qed.

Lemma initial_coalesced (ratio : Q) : coalesced (initial ratio).
Proof. split; [cbn; lia | now left]. Qed.

(** Witness for C4: three calls before the frame; the first one resizes,
    the last asks for the overlay only. *)
Lemma updates_coalesce_witness :
  let w := initial (3 # 2) in
  let calls := [(MAIN, pane); (ALL, pane)] ++ [(OVERLAY, pane)] in
  (forall k, (List.length (pending (frames (updates (firstn k calls) w))) <= 1)%nat)
  /\ (exists handle,
        pending (frames (updates calls w)) = [(handle, UpdateOverlay)]
        /\ _requestAnimationId (updates calls w) = handle)
  /\ executed (fireFrame (updates calls w)) = [UpdateOverlay]
  /\ body UpdateOverlay = [RedrawOverlay]
  /\ pending (frames (fireFrame (updates calls w))) = [].
Proof.
  intros w calls.
  exact (@updates_coalesce_into_one_redraw w [(MAIN, pane); (ALL, pane)]
           OVERLAY pane (initial_coalesced (3 # 2))).
Defined.

(** The last of three calls changes the size and asks for the main canvas
    only: the one redraw that runs covers both canvases. *)
Example coalesced_resize_sample :
  executed (fireFrame (updates [(MAIN, pane); (OVERLAY, pane); (MAIN, strip)]
                         (initial (3 # 2))))
  = [UpdateBoth].
Proof. vm_compute. reflexivity. Qed.

(** Witness for C5: the first call on a new widget, asking for the overlay
    only, on a display of pixel ratio 1.15.  The product [100 * 1.15] is
    the number just below 115. *)
Lemma resize_witness :
  let w := initial (115 # 100) in
  let w' := updateImp OVERLAY strip w in
  width (_mainCanvas w') = JS.ofInt 114
  /\ height (_mainCanvas w') = JS.ofInt 23
  /\ width (_overlayCanvas w') = JS.ofInt 114
  /\ height (_overlayCanvas w') = JS.ofInt 23
  /\ offsetWidth (_mainCanvas w') = 100
  /\ offsetHeight (_overlayCanvas w') = 20
  /\ calls (_mainCanvas w')
     = [ClearRect 0 0 300 150; Scale (JS.ofQ (115 # 100)) (JS.ofQ (115 # 100))]
  /\ pending (frames w') = [(1, UpdateBoth)].
Proof.
  intros w w'.
  destruct (proj1 (resize_forces_full_redraw OVERLAY strip w))
    as (Hm & _ & (H1 & H2 & H3 & H4) & (H5 & _ & _ & H6) & _ & _).
  { left. cbn. lia. }
  fold w' in Hm, H1, H2, H3, H4, H5, H6.
  rewrite H1, H2, H3, H4, H5, H6, Hm.
  repeat split; vm_compute; reflexivity.
Defined.

Example resize_sample :
  let w' := updateImp OVERLAY pane (initial (3 # 2)) in
  width (_mainCanvas w') = JS.ofInt 1201
  /\ height (_overlayCanvas w') = JS.ofInt 600
  /\ offsetWidth (_mainCanvas w') = 801
  /\ pending (frames w') = [(1, UpdateBoth)].
Proof. vm_compute. auto. Qed.

(** With the size unchanged, a call for the overlay clears and redraws the
    overlay only. *)
Example no_resize_sample :
  let w1 := updateImp ALL pane (initial (3 # 2)) in
  let w2 := updateImp OVERLAY pane (fireFrame w1) in
  calls (_mainCanvas w2) = calls (_mainCanvas w1)
  /\ calls (_overlayCanvas w2)
     = calls (_overlayCanvas w1) ++ [ClearRect 0 0 801 400]
  /\ pending (frames w2) = [(2, UpdateOverlay)].
Proof. vm_compute. auto. Qed.

End Resize.

(* ====================================================================== *)
(** * CandleAreaView: the gradient's exception *)
(* ====================================================================== *)

Section Gradient.

Import JS CandleAreaView AreaScenario.



Lemma addColorStops_throw (env : Env) (good : list GradientColor)
  (bad : GradientColor) (rest : list GradientColor) (e : JsError) :
  (forall s, In s good -> colorStopError env s = None) ->
  colorStopError env bad = Some e ->
  forall g,
  addColorStops env g (good ++ bad :: rest)
  = (List.map AddColorStop good, stopsAdded g good, Some e).
Proof.
  intros Hgood Hbad. induction good as [|s good IH]; intros g;
    cbn [app addColorStops List.map].
  - rewrite Hbad. unfold stopsAdded. rewrite app_nil_r. now destruct g.
  - rewrite (Hgood s) by now left.
    rewrite IH by (intros; apply Hgood; now right).
    unfold stopsAdded. cbn. now rewrite <- app_assoc.
Qed.

Lemma addColorStops_ok (env : Env) (good : list GradientColor) :
  (forall s, In s good -> colorStopError env s = None) ->
  forall g,
  addColorStops env g good
  = (List.map AddColorStop good, stopsAdded g good, None).
Proof.
  intros Hgood. induction good as [|s good IH]; intros g;
    cbn [addColorStops List.map].
  - unfold stopsAdded. rewrite app_nil_r. now destruct g.
  - rewrite (Hgood s) by now left.
    rewrite IH by (intros; apply Hgood; now right).
    unfold stopsAdded. cbn. now rewrite <- app_assoc.
Qed.

(** The [catch] clause swallows whatever the loop throws. *)
Lemma tryAddColorStops_caught (env : Env) (g : CanvasGradient)
  (stops : list GradientColor) :
  snd (tryAddColorStops env g stops) = None.
Proof.
  unfold tryAddColorStops.
  destruct (addColorStops env g stops) as [[t g1] [e|]]; reflexivity.
Qed.

Lemma fillColor_caught (env : Env) (c : Collected) :
  snd (fillColor env c) = None.
Proof.
  unfold fillColor. destruct (backgroundColor (areaStyles env)); [reflexivity|].
  match goal with
  | |- context [tryAddColorStops ?e ?g ?s] =>
      pose proof (tryAddColorStops_caught e g s) as H;
      destruct (tryAddColorStops e g s) as [[t g1] r]
  end.
  exact H.
Qed.

(** What [this._animation.stop()] amounts to. *)
Lemma stopAnimation_eq (env : Env) (v : View) :
  stopAnimation env v
  = (AnimationStop :: match lastFrame env (_animation v) with
                      | Some _ => [UpdatePane (paneId env)]
                      | None => []
                      end,
     {| _figure := _figure v;
        _animationFrameTime := match lastFrame env (_animation v) with
                               | Some time => time
                               | None => _animationFrameTime v
                               end;
        _animation := stop (_animation v) |},
     None).
Proof.
  unfold stopAnimation, doFrame.
  destruct (lastFrame env (_animation v)); reflexivity.
Qed.

Lemma pointPart_returns (env : Env) (c : Collected) (v : View) :
  snd (pointPart env c v) = None.
Proof.
  unfold pointPart.
  destruct (show (point (areaStyles env))), (indicatePointCoordinate c);
    rewrite ?stopAnimation_eq; reflexivity.
Qed.

Lemma drawImp_returns (env : Env) (v : View) : snd (drawImp env v) = None.
Proof.
  unfold drawImp, andThen, areaPart.
  destruct (coordinates (collect env)) as [|first others].
  - cbn. pose proof (pointPart_returns env (collect env) v) as H.
    destruct (pointPart env (collect env) v) as [[t v'] r]. exact H.
  - unfold andThen, tell.
    pose proof (fillColor_caught env (collect env)) as Hf.
    destruct (fillColor env (collect env)) as [[t style] r].
    cbn in Hf. subst r.
    pose proof (pointPart_returns env (collect env) v) as H.
    destruct (pointPart env (collect env) v) as [[t' v'] r]. exact H.
Qed.

Lemma eachChildren_withStops (env : Env) (stops : list GradientColor)
  (l : list VisibleData) :
  forall i c,
  eachChildren (withStops env stops) i l c = eachChildren env i l c.
Proof.
  induction l as [|d l IH]; intros i c; cbn [eachChildren];
    [reflexivity | exact (IH _ _)].
Qed.

Lemma collect_withStops (env : Env) (stops : list GradientColor) :
  collect (withStops env stops) = collect env.
Proof. unfold collect. apply eachChildren_withStops. Qed.

(** The events of the point part, written out. *)
Lemma pointPart_events (env : Env) (c : Collected) (v : View) :
  let s := point (areaStyles env) in
  let starts :=
    if animation s
    then [AnimationSetDuration (animationDuration s); AnimationStart]
    else [] in
  fst (fst (pointPart env c v))
  = match show s, indicatePointCoordinate c with
    | true, Some p =>
        drawOpt (createFigure env
                   {| name := "circle";
                      attrs := CircleAttrs (x p) (y p) (radius s);
                      styles := FillStyles (point_color s) |})
        ++ starts
        ++ drawOpt
             (match _figure v with
              | None =>
                  createFigure env
                    {| name := "circle";
                       attrs := CircleAttrs (x p) (y p) (rippleRadius s);
                       styles := FillStyles (rippleColor s) |}
              | Some f =>
                  Some (setAttrs f
                          (CircleAttrs (x p) (y p)
                             (if animation s
                              then (radius s
                                    + _animationFrameTime v / animationDuration s
                                      * (rippleRadius s - radius s))%Q
                              else rippleRadius s)))
              end)
        ++ starts
    | _, _ =>
        AnimationStop :: match lastFrame env (_animation v) with
                         | Some _ => [UpdatePane (paneId env)]
                         | None => []
                         end
    end.
Proof.
  intros s starts. unfold pointPart. fold s.
  destruct (show s), (indicatePointCoordinate c);
    rewrite ?stopAnimation_eq; reflexivity.
Qed.

(** C9.  [drawImp] never ends with an exception.  When the background is
    an array of stops whose first failing stop is [bad] (the stops [good]
    before it succeed) and there is something to draw, the pass draws the
    line, adds the stops [good], logs the error, fills the area with the
    gradient that holds the stops [good], and goes on with the rest of the
    pass: when the point is shown and the last data point is visible it
    draws the indicator point and then the ripple figure (the view's own,
    moved to the point, or a new one), starting the animation around it
    when that is switched on; otherwise it stops the animation.  The same
    pass with just [good] as background gives the same events without the
    log entry, and the same view. *)
Theorem gradient_error_is_contained :
  (forall env v, snd (drawImp env v) = None)
  /\ (forall env v good bad rest e first others,
        backgroundColor (areaStyles env) = Stops (good ++ bad :: rest) ->
        (forall s, In s good -> colorStopError env s = None) ->
        colorStopError env bad = Some e ->
        coordinates (collect env) = first :: others ->
        let c := collect env in
        let s := point (areaStyles env) in
        let gradient :=
          {| gx0 := 0; gy0 := boundingHeight env; gx1 := 0; gy1 := minY c;
             colorStops := good |} in
        let line :=
          drawOpt (createFigure env
                     {| name := "line"; attrs := LineAttrs (coordinates c);
                        styles := LineStyles (lineColor (areaStyles env))
                                    (lineSize (areaStyles env))
                                    (smooth (areaStyles env)) |}) in
        let stops :=
          CreateLinearGradient 0 (boundingHeight env) 0 (minY c)
          :: List.map AddColorStop good in
        let log := ConsoleLog ("CandleAreaView " ++ toString e) in
        let area :=
          [SetFillStyle (FillGradient gradient);
           BeginPath;
           MoveTo (areaStartX c) (boundingHeight env);
           LineTo (x first) (y first);
           LineToHelper (coordinates c) (smooth (areaStyles env));
           LineTo (x (last (coordinates c) first)) (boundingHeight env);
           ClosePath;
           Fill] in
        let starts :=
          if animation s
          then [AnimationSetDuration (animationDuration s); AnimationStart]
          else [] in
        let remainder :=
          match show s, indicatePointCoordinate c with
          | true, Some p =>
              drawOpt (createFigure env
                         {| name := "circle";
                            attrs := CircleAttrs (x p) (y p) (radius s);
                            styles := FillStyles (point_color s) |})
              ++ starts
              ++ drawOpt
                   (match _figure v with
                    | None =>
                        createFigure env
                          {| name := "circle";
                             attrs := CircleAttrs (x p) (y p) (rippleRadius s);
                             styles := FillStyles (rippleColor s) |}
                    | Some f =>
                        Some (setAttrs f
                                (CircleAttrs (x p) (y p)
                                   (if animation s
                                    then (radius s
                                          + _animationFrameTime v
                                            / animationDuration s
                                            * (rippleRadius s - radius s))%Q
                                    else rippleRadius s)))
                    end)
              ++ starts
          | _, _ =>
              AnimationStop :: match lastFrame env (_animation v) with
                               | Some _ => [UpdatePane (paneId env)]
                               | None => []
                               end
          end in
        fst (fst (drawImp env v)) = line ++ stops ++ log :: area ++ remainder
        /\ drawImp (withStops env good) v
           = (line ++ stops ++ area ++ remainder,
              snd (fst (drawImp env v)), None)).
Proof.
  split; [exact drawImp_returns|].
  intros env v good bad rest e first others Hbg Hgood Hbad Hcoords
         c s gradient line stops log area starts remainder.
  subst c. set (c := collect env) in *.
  assert (Hpoint : forall env0, point (areaStyles env0) = point (areaStyles env) ->
            createFigure env0 = createFigure env ->
            paneId env0 = paneId env ->
            lastFrame env0 = lastFrame env ->
            pointPart env0 c v = pointPart env c v).
  { intros env0 Hp Hc Hi Hl. unfold pointPart, stopAnimation, doFrame.
    rewrite Hp, Hc, Hi, Hl. reflexivity. }
  assert (Hrem : fst (fst (pointPart env c v)) = remainder)
    by apply pointPart_events.
  assert (Hrun :
    drawImp env v
    = (line ++ stops ++ log :: area ++ remainder,
       snd (fst (pointPart env c v)), None)).
  { unfold drawImp, andThen, areaPart. fold c. rewrite Hcoords.
    unfold andThen, tell, fillColor. rewrite Hbg. unfold tryAddColorStops.
    rewrite (@addColorStops_throw env good bad rest e Hgood Hbad).
    rewrite <- Hrem.
    destruct (pointPart env c v) as [[t v'] r] eqn:Ep.
    pose proof (pointPart_returns env c v) as Hr. rewrite Ep in Hr.
    cbn in Hr. subst r. cbn [fst snd].
    unfold line, stops, log, area, areaPath, stopsAdded, gradient.
    cbn [gx0 gy0 gx1 gy1 colorStops app].
    rewrite ?Hcoords. now same_trace. }
  split.
  - rewrite Hrun. reflexivity.
  - rewrite Hrun. cbn [fst snd].
    unfold drawImp. rewrite collect_withStops. fold c.
    unfold andThen, areaPart. rewrite Hcoords.
    unfold andThen, tell, fillColor.
    cbn [withStops areaStyles backgroundColor boundingHeight createFigure
         lineColor lineSize smooth].
    unfold tryAddColorStops.
    rewrite (@addColorStops_ok (withStops env good) good) by exact Hgood.
    rewrite (Hpoint (withStops env good)) by reflexivity.
    rewrite <- Hrem.
    destruct (pointPart env c v) as [[t v'] r] eqn:Ep.
    pose proof (pointPart_returns env c v) as Hr. rewrite Ep in Hr.
    cbn in Hr. subst r. cbn [fst snd].
    unfold line, stops, area, areaPath, stopsAdded, gradient.
    cbn [gx0 gy0 gx1 gy1 colorStops app].
    rewrite ?Hcoords. now same_trace.
Qed.

End Gradient.

Section GradientCheck.

Import JS CandleAreaView AreaScenario AreaSamples.

(** Witness for C9: the second of three stops has offset 1.5.  The pass
    logs the error once, fills the area with the gradient that holds the
    first stop only, and then draws the indicator point and the ripple
    figure at the last bar, (25, 365). *)
Lemma gradient_error_witness :
  fst (fst (drawImp badStops idle))
  = [DrawFigure
       {| name := "line";
          attrs := LineAttrs [{| x := 5; y := 380 |}; {| x := 15; y := 350 |};
                              {| x := 25; y := 365 |}];
          styles := LineStyles "#2196F3" 2 false |};
     CreateLinearGradient 0 400 0 350;
     AddColorStop {| offset := 0; color := "rgba(33, 150, 243, 0.01)" |};
     ConsoleLog "CandleAreaView IndexSizeError";
     SetFillStyle
       (FillGradient
          {| gx0 := 0; gy0 := 400; gx1 := 0; gy1 := 350;
             colorStops :=
               [{| offset := 0; color := "rgba(33, 150, 243, 0.01)" |}] |});
     BeginPath;
     MoveTo 5 400;
     LineTo 5 380;
     LineToHelper [{| x := 5; y := 380 |}; {| x := 15; y := 350 |};
                   {| x := 25; y := 365 |}] false;
     LineTo 25 400;
     ClosePath;
     Fill;
     DrawFigure {| name := "circle"; attrs := CircleAttrs 25 365 4;
                   styles := FillStyles "#2196F3" |};
     AnimationSetDuration 1000;
     AnimationStart;
     DrawFigure {| name := "circle"; attrs := CircleAttrs 25 365 8;
                   styles := FillStyles "rgba(33, 150, 243, 0.3)" |};
     AnimationSetDuration 1000;
     AnimationStart]
  /\ snd (drawImp badStops idle) = None.
Proof.
  split; [|apply (proj1 gradient_error_is_contained)].
  destruct (proj2 gradient_error_is_contained badStops idle
              [{| offset := 0; color := "rgba(33, 150, 243, 0.01)" |}]
              {| offset := 3 # 2; color := "rgba(33, 150, 243, 0.2)" |}
              [{| offset := 1; color := "rgba(33, 150, 243, 0.4)" |}]
              (DOMException "IndexSizeError")
              {| x := 5; y := 500 - 120 |}
              [{| x := 15; y := 500 - 150 |}; {| x := 25; y := 500 - 135 |}]
              eq_refl)
    as (Hrun & _).
  - intros s [<-|[]]. reflexivity.
  - reflexivity.
  - reflexivity.
  - rewrite Hrun. vm_compute. reflexivity.
Defined.

End GradientCheck.

(* ====================================================================== *)
(** * GraphicMark: the line renderer *)
(* ====================================================================== *)

Section LineRenderer.

Import JS GraphicMark Scenario Samples MarkCoverage.

Lemma drawLine_renders (item : DataItem) :
  hasTwoPoints item = true ->
  snd (drawLine item) = None /\ List.length (fst (drawLine item)) = 1%nat.
Proof.
  destruct item as [[|p0 [|p1 ps]]|]; try discriminate. intros _.
  unfold drawLine. cbn [itemAt nth_error].
  destruct (getLineType p0 p1); auto.
Qed.

Lemma drawLine_throws (item : DataItem) :
  hasTwoPoints item = false -> drawLine item = raise TypeError.
Proof.
  destruct item as [[|p0 [|p1 ps]]|]; try discriminate; reflexivity.
Qed.

Lemma forEach_drawLine_renders (lines : list DataItem) :
  forallb hasTwoPoints lines = true ->
  snd (forEach drawLine lines) = None
  /\ List.length (fst (forEach drawLine lines)) = List.length lines.
Proof.
  induction lines as [|item lines IH]; cbn [forallb forEach]; [auto|].
  intros H. apply andb_prop in H. destruct H as [Hi Hl].
  destruct (@drawLine_renders item Hi) as [Hs Hn].
  destruct (IH Hl) as [IHs IHn].
  unfold andThen. rewrite Hs. cbn [fst snd].
  rewrite length_app, Hn, IHn. auto.
Qed.

Lemma forEach_drawLine_throws (good : list DataItem) (bad : DataItem)
  (rest : list DataItem) :
  forallb hasTwoPoints good = true ->
  hasTwoPoints bad = false ->
  forEach drawLine (good ++ bad :: rest)
  = (fst (forEach drawLine good), Some TypeError).
Proof.
  intros Hgood Hbad.
  induction good as [|item good IH]; cbn [app forEach forallb] in *.
  - rewrite (@drawLine_throws bad Hbad). reflexivity.
  - apply andb_prop in Hgood. destruct Hgood as [Hi Hl].
    destruct (@drawLine_renders item Hi) as [Hs _].
    rewrite (IH Hl). unfold andThen. rewrite Hs. reflexivity.
Qed.

(** X1.  [_drawLines] on items that all hold at least two points never
    throws and makes, after the two style assignments, one render call per
    item.  At the first item with fewer than two points it throws a
    [TypeError], having rendered exactly the items before it. *)
Theorem drawLines_renders_until_a_short_item :
  (forall lines markOptions,
     forallb hasTwoPoints lines = true ->
     snd (_drawLines lines markOptions) = None
     /\ List.length (fst (_drawLines lines markOptions))
        = (2 + List.length lines)%nat)
  /\ (forall good bad rest markOptions,
        forallb hasTwoPoints good = true ->
        hasTwoPoints bad = false ->
        _drawLines (good ++ bad :: rest) markOptions
        = (fst (_drawLines good markOptions), Some TypeError)).
Proof.
  split.
  - intros lines markOptions H.
    destruct (@forEach_drawLine_renders lines H) as [Hs Hn].
    unfold _drawLines, andThen, emit. cbn [fst snd].
    rewrite Hs. cbn [fst snd app List.length]. now rewrite Hn.
  - intros good bad rest markOptions Hgood Hbad.
    unfold _drawLines, andThen, emit. cbn [fst snd].
    rewrite (@forEach_drawLine_throws good bad rest Hgood Hbad). reflexivity.
Qed.

Lemma drawLines_witness :
  _drawLines ([Points [px 0 0; px 10 10]] ++ Points [px 5 5] :: [Points []])
    markOptions
  = (fst (_drawLines [Points [px 0 0; px 10 10]] markOptions), Some TypeError).
Proof.
  apply (proj2 drawLines_renders_until_a_short_item); reflexivity.
Defined.

Lemma Qeq_bool_sym' (a b : Q) : Qeq_bool a b = Qeq_bool b a.
Proof.
  destruct (Qeq_bool a b) eqn:E1, (Qeq_bool b a) eqn:E2; auto.
  - apply Qeq_bool_iff in E1. symmetry in E1. apply Qeq_bool_iff in E1. congruence.
  - apply Qeq_bool_iff in E2. symmetry in E2. apply Qeq_bool_iff in E2. congruence.
Qed.

(** X2.  [getLineType] does not depend on the order of its two points; two
    coincident points count as VERTICAL; the result is VERTICAL exactly
    when the abscissas are equal, HORIZONTAL exactly when only the
    ordinates are, and COMMON exactly when neither is. *)
Theorem getLineType_classifies (p q : XY) :
  getLineType p q = getLineType q p
  /\ getLineType p p = VERTICAL
  /\ (getLineType p q = VERTICAL <-> x p == x q)
  /\ (getLineType p q = HORIZONTAL <-> ~ x p == x q /\ y p == y q)
  /\ (getLineType p q = COMMON <-> ~ x p == x q /\ ~ y p == y q).
Proof.
  assert (Hx : Qeq_bool (x p) (x q) = true <-> x p == x q)
    by apply Qeq_bool_iff.
  assert (Hy : Qeq_bool (y p) (y q) = true <-> y p == y q)
    by apply Qeq_bool_iff.
  unfold getLineType. split; [|split].
  - now rewrite (Qeq_bool_sym' (x p) (x q)), (Qeq_bool_sym' (y p) (y q)).
  - replace (Qeq_bool (x p) (x p)) with true; [reflexivity|].
    symmetry. apply Qeq_bool_iff. reflexivity.
  - destruct (Qeq_bool (x p) (x q)), (Qeq_bool (y p) (y q));
      repeat split; intros; try discriminate; try reflexivity;
      try tauto;
      try (match goal with H : _ /\ _ |- _ => destruct H end);
      try (exfalso; intuition congruence); intuition congruence.
Qed.

End LineRenderer.

(* ====================================================================== *)
(** * GraphicMark: what [draw] does around the groups *)
(* ====================================================================== *)

Section DrawHandles.

Import JS GraphicMark Scenario Samples MarkCoverage.

(** A [forEach] whose body never throws is a concatenation. *)
Lemma forEach_total (A : Type) (f : A -> Drawing) (l : list A) :
  (forall a, snd (f a) = None) ->
  forEach f l = (flat_map (fun a => fst (f a)) l, None).
Proof.
  intros H. induction l as [|a l IH]; cbn [forEach flat_map]; [reflexivity|].
  unfold andThen. rewrite H, IH. reflexivity.
Qed.

Lemma drawHandle_total (m : GraphicMark) (markOptions : MarkOptions)
  (entry : Z * XY) : snd (drawHandle m markOptions entry) = None.
Proof.
  unfold drawHandle.
  destruct (HoverType_eqb (_hoverType m) POINT && (fst entry =? _hoverIndex m));
    reflexivity.
Qed.

Lemma length_xyPoints (w : World) :
  JsArray.length (JsArray.map (xyPointOf (this w)) (tpPoints w))
  = JsArray.length (tpPoints w).
Proof.
  unfold JsArray.length, JsArray.map. cbn [JsArray.items].
  now rewrite length_map.
Qed.

(** X3.  While the mark is in its initial step, or has no point at all,
    [draw] does not consult the hooks: it gives the same result for any two
    extensions, never throws, and draws nothing at all when nothing is
    hovered. *)
Theorem draw_before_first_click (ext ext' : Extension) (w : World) :
  _drawStep (this w) = GRAPHIC_MARK_DRAW_STEP_START
  \/ JsArray.length (tpPoints w) = 0 ->
  draw ext w = draw ext' w
  /\ snd (draw ext w) = None
  /\ (_hoverType (this w) = NONE -> draw ext w = ([], None)).
Proof.
  intros H.
  assert (Hguard :
    negb (_drawStep (this w) =? GRAPHIC_MARK_DRAW_STEP_START)
    && (0 <? JsArray.length (JsArray.map (xyPointOf (this w)) (tpPoints w)))
    = false).
  { rewrite length_xyPoints. destruct H as [H|H]; rewrite H.
    - reflexivity.
    - apply andb_false_r. }
  unfold draw. rewrite Hguard.
  repeat split.
  - destruct (negb (HoverType_eqb (_hoverType (this w)) NONE));
      [|reflexivity].
    rewrite forEach_total by apply drawHandle_total. reflexivity.
  - intros Hnone. rewrite Hnone. reflexivity.
Qed.

Lemma draw_before_first_click_witness :
  draw greedy (mouseMoveForDrawing greedy (px 100 50) (fresh 3))
  = draw base (mouseMoveForDrawing greedy (px 100 50) (fresh 3))
  /\ snd (draw greedy (mouseMoveForDrawing greedy (px 100 50) (fresh 3))) = None
  /\ (_hoverType (this (mouseMoveForDrawing greedy (px 100 50) (fresh 3))) = NONE ->
      draw greedy (mouseMoveForDrawing greedy (px 100 50) (fresh 3)) = ([], None)).
Proof.
  apply draw_before_first_click. left. reflexivity.
Defined.

Lemma flat_map_singleton (A B : Type) (f : A -> B) (l : list A) :
  flat_map (fun a => [f a]) l = List.map f l.
Proof. induction l; cbn; congruence. Qed.

(** The handle [draw] gives the point at key [k]. *)
Lemma drawHandle_op (w : World) (entry : Z * XY) :
  drawHandle (this w) (graphicMark (_chartData (this w))) entry
  = emit [if HoverType_eqb (_hoverType (this w)) POINT
             && (fst entry =? _hoverIndex (this w))
          then activeHandle w (snd entry) else plainHandle w (snd entry)].
Proof.
  unfold drawHandle, activeHandle, plainHandle.
  destruct (HoverType_eqb (_hoverType (this w)) POINT
            && (fst entry =? _hoverIndex (this w))); reflexivity.
Qed.

(** X4.  With a hover type other than NONE, [draw] throws exactly when it
    would without the hover, and otherwise draws what it would draw without
    the hover followed by one circle per placed point (holes have none):
    the active circle for the point at [hoverIndex] when the type is POINT,
    the plain circle for every other point, and plain circles only when the
    type is OTHER. *)
Theorem draw_adds_one_handle_per_point (ext : Extension) (w : World) :
  _hoverType (this w) <> NONE ->
  snd (draw ext w) = snd (draw ext (resetHoverParams w))
  /\ (snd (draw ext w) = None ->
      exists handles,
        fst (draw ext w) = fst (draw ext (resetHoverParams w)) ++ handles
        /\ List.length handles = List.length (JsArray.entries (xyPoints w))
        /\ (forall k center,
              In (k, center) (JsArray.entries (xyPoints w)) ->
              In (if HoverType_eqb (_hoverType (this w)) POINT
                     && (k =? _hoverIndex (this w))
                  then activeHandle w center else plainHandle w center)
                 handles)
        /\ (_hoverType (this w) = OTHER ->
            handles
            = List.map (fun e => plainHandle w (snd e))
                (JsArray.entries (xyPoints w)))).
Proof.
  intros Hhover.
  assert (Hneg : negb (HoverType_eqb (_hoverType (this w)) NONE) = true)
    by (destruct (_hoverType (this w)); [reflexivity | reflexivity | congruence]).
  set (handles :=
         List.map (fun e : Z * XY =>
                     if HoverType_eqb (_hoverType (this w)) POINT
                        && (fst e =? _hoverIndex (this w))
                     then activeHandle w (snd e) else plainHandle w (snd e))
           (JsArray.entries (xyPoints w))).
  assert (Hhandles :
    forEach (drawHandle (this w) (graphicMark (_chartData (this w))))
      (JsArray.entries (xyPoints w)) = (handles, None)).
  { rewrite forEach_total by apply drawHandle_total.
    unfold handles. rewrite <- flat_map_singleton. f_equal.
    apply flat_map_ext. intros e. now rewrite drawHandle_op. }
  unfold draw. cbv zeta. rewrite Hneg.
  change (JsArray.map (xyPointOf (this w)) (tpPoints w)) with (xyPoints w).
  rewrite Hhandles.
  change (negb (HoverType_eqb (_hoverType (this (resetHoverParams w))) NONE))
    with false. cbv iota.
  change (this (resetHoverParams w)) with (with_hover (this w) NONE (-1)).
  cbn [_drawStep with_hover _chartData _xAxis _yAxis].
  change (tpPoints (resetHoverParams w)) with (tpPoints w).
  change (JsArray.map (xyPointOf (with_hover (this w) NONE (-1))) (tpPoints w))
    with (xyPoints w).
  change (graphicOptionsOf ext (resetHoverParams w) (xyPoints w))
    with (graphicOptionsOf ext w (xyPoints w)).
  change (viewportOf (with_hover (this w) NONE (-1))) with (viewportOf (this w)).
  change (precisionOf (with_hover (this w) NONE (-1))) with (precisionOf (this w)).
  match goal with
  | |- context [andThen ?S (handles, None)] => set (shapes := S)
  end.
  unfold andThen, emit. destruct (snd shapes) as [e|] eqn:Es; cbn [fst snd].
  - rewrite Es. split; [reflexivity | discriminate].
  - split; [reflexivity|]. intros _. exists handles.
    rewrite app_nil_r. split; [reflexivity|]. split; [|split].
    + unfold handles. apply length_map.
    + intros k center Hin. unfold handles.
      change (if HoverType_eqb (_hoverType (this w)) POINT
                 && (k =? _hoverIndex (this w))
              then activeHandle w center else plainHandle w center)
        with ((fun e : Z * XY =>
                 if HoverType_eqb (_hoverType (this w)) POINT
                    && (fst e =? _hoverIndex (this w))
                 then activeHandle w (snd e) else plainHandle w (snd e))
                (k, center)).
      now apply in_map.
    + intros Hother. unfold handles. rewrite Hother. reflexivity.
Qed.

Lemma draw_handles_witness :
  snd (draw base (setHover (segmentPlaced base) POINT 0))
  = snd (draw base (resetHoverParams (setHover (segmentPlaced base) POINT 0))).
Proof.
  apply (proj1 (@draw_adds_one_handle_per_point base
                  (setHover (segmentPlaced base) POINT 0)
                  ltac:(discriminate))).
Defined.

End DrawHandles.

(* ====================================================================== *)
(** * GraphicMark: clicks outside the placing states *)
(* ====================================================================== *)

Section Clicks.

Import JS GraphicMark Scenario Samples MarkCoverage.

Lemma clicks_S (n : nat) (w : World) :
  clicks (S n) w = mouseLeftButtonDownForDrawing (clicks n w).
Proof. reflexivity. Qed.

Lemma clicks_totalStep (n : nat) (w : World) :
  _totalStep (this (clicks n w)) = _totalStep (this w).
Proof.
  induction n as [|n IH]; [reflexivity|].
  rewrite clicks_S. unfold mouseLeftButtonDownForDrawing. cbv zeta.
  match goal with |- context [if ?c then _ else _] => destruct c end;
    cbn; exact IH.
Qed.

(** X5.  A mark built with [totalStep <= 1] never finishes: from the
    initial state, [n] clicks leave it at step [1 + n], still drawing. *)
Theorem small_totalStep_never_finishes (w : World) (n : nat) :
  _totalStep (this w) <= 1 ->
  _drawStep (this w) = GRAPHIC_MARK_DRAW_STEP_START ->
  _drawStep (this (clicks n w)) = 1 + Z.of_nat n
  /\ isDrawing (clicks n w) = true.
Proof.
  intros HK Hs.
  assert (H : _drawStep (this (clicks n w)) = 1 + Z.of_nat n).
  { induction n as [|n IH]; [exact Hs|].
    pose proof (clicks_totalStep n w) as Ht.
    rewrite clicks_S. unfold mouseLeftButtonDownForDrawing.
    rewrite IH, Ht.
    destruct (1 + Z.of_nat n =? _totalStep (this w) - 1) eqn:E.
    - apply Z.eqb_eq in E. lia.
    - cbn [_drawStep with_drawStep this]. lia. }
  split; [exact H|]. unfold isDrawing. rewrite H.
  unfold GRAPHIC_MARK_DRAW_STEP_FINISHED.
  destruct (1 + Z.of_nat n =? -1) eqn:E; [apply Z.eqb_eq in E; lia | reflexivity].
Qed.

Lemma small_totalStep_witness :
  _drawStep (this (clicks 5 (fresh 1))) = 1 + Z.of_nat 5
  /\ isDrawing (clicks 5 (fresh 1)) = true.
Proof.
  apply small_totalStep_never_finishes; [cbn; lia | reflexivity].
Defined.

(** X6.  The click handler has no guard for a finished mark: with
    [totalStep = K >= 1], a click on a FINISHED mark makes it a drawing one
    again (step 0), it stays drawing over the next clicks (step [n - 1]
    after [n <= K] clicks), and the click number [K + 1] finishes it
    again. *)
Theorem finished_mark_reopens_on_click (w : World) :
  1 <= _totalStep (this w) ->
  _drawStep (this w) = GRAPHIC_MARK_DRAW_STEP_FINISHED ->
  (forall n : nat,
     (1 <= n)%nat -> Z.of_nat n <= _totalStep (this w) ->
     _drawStep (this (clicks n w)) = Z.of_nat n - 1
     /\ isDrawing (clicks n w) = true)
  /\ _drawStep (this (clicks (S (Z.to_nat (_totalStep (this w)))) w))
     = GRAPHIC_MARK_DRAW_STEP_FINISHED.
Proof.
  intros HK Hs.
  assert (Hrun : forall n : nat,
            (1 <= n)%nat -> Z.of_nat n <= _totalStep (this w) ->
            _drawStep (this (clicks n w)) = Z.of_nat n - 1).
  { induction n as [|n IH]; [lia|]. intros _ Hn.
    pose proof (clicks_totalStep n w) as Ht.
    rewrite clicks_S. unfold mouseLeftButtonDownForDrawing.
    rewrite Ht. destruct n as [|n].
    - change (clicks 0 w) with w. rewrite Hs. unfold GRAPHIC_MARK_DRAW_STEP_FINISHED.
      destruct (-1 =? _totalStep (this w) - 1) eqn:E;
        [apply Z.eqb_eq in E; lia | reflexivity].
    - rewrite IH by lia.
      destruct (Z.of_nat (S n) - 1 =? _totalStep (this w) - 1) eqn:E;
        [apply Z.eqb_eq in E; lia | cbn [_drawStep with_drawStep this]; lia]. }
  split.
  - intros n H1 Hn. split; [now apply Hrun|].
    unfold isDrawing. rewrite Hrun by assumption.
    unfold GRAPHIC_MARK_DRAW_STEP_FINISHED.
    destruct (Z.of_nat n - 1 =? -1) eqn:E;
      [apply Z.eqb_eq in E; lia | reflexivity].
  - pose proof (clicks_totalStep (Z.to_nat (_totalStep (this w))) w) as Ht.
    pose proof (Hrun (Z.to_nat (_totalStep (this w)))) as Hlast.
    rewrite clicks_S. unfold mouseLeftButtonDownForDrawing.
    rewrite Ht, Hlast by lia.
    replace (Z.of_nat (Z.to_nat (_totalStep (this w))) - 1
             =? _totalStep (this w) - 1) with true; [reflexivity|].
    symmetry. apply Z.eqb_eq. lia.
Qed.

Lemma finished_mark_reopens_witness :
  _drawStep (this (clicks 4 (segmentPlaced base)))
  = GRAPHIC_MARK_DRAW_STEP_FINISHED.
Proof.
  apply (proj2 (@finished_mark_reopens_on_click (segmentPlaced base)
                  ltac:(cbn; lia) eq_refl)).
Defined.

End Clicks.

(* ====================================================================== *)
(** * GraphicMark: the hover query leaves the points alone *)
(* ====================================================================== *)

Section QueryFrame.

Import JS GraphicMark Scenario Samples MarkCoverage.

(** X7.  A hover query that completes changes nothing but the two hover
    fields: the heap, the points, the step and the total are as before. *)
Theorem hover_query_changes_only_hover (ext : Extension) (pt : XY)
  (w w' : World) (r : JsRet) :
  checkMousePointOnGraphic ext pt w = Ok (r, w') ->
  w' = setHover w (_hoverType (this w')) (_hoverIndex (this w'))
  /\ heap w' = heap w
  /\ tpPoints w' = tpPoints w
  /\ _drawStep (this w') = _drawStep (this w)
  /\ _totalStep (this w') = _totalStep (this w).
Proof.
  intros H. unfold checkMousePointOnGraphic in H.
  destruct (checkPlacedPoints ext (this w) pt 0 [] (JsArray.items (tpPoints w)))
    as [[[k|] xy]|e]; cbn [bind fst snd] in H; try discriminate H.
  - inversion H; subst. repeat split.
  - destruct (checkGroups ext pt (graphicOptionsOf ext w (JsArray.of_list xy)));
      inversion H; subst; repeat split.
Qed.

Lemma hover_query_witness :
  let w := segmentPlaced greedy in
  let w' := setHover w POINT 1 in
  w' = setHover w (_hoverType (this w')) (_hoverIndex (this w'))
  /\ heap w' = heap w
  /\ tpPoints w' = tpPoints w
  /\ _drawStep (this w') = _drawStep (this w)
  /\ _totalStep (this w') = _totalStep (this w).
Proof.
  intros w w'.
  apply (@hover_query_changes_only_hover greedy (px 201 81) w w' (RetBool true)).
  reflexivity.
Defined.

End QueryFrame.

(* ====================================================================== *)
(** * GraphicMark: what holds in every reachable world *)
(* ====================================================================== *)

Section Reachable.

Import JS GraphicMark Scenario Samples MarkCoverage.

Lemma hoverValid_same (w w' : World) :
  _tpPoints (this w') = _tpPoints (this w) ->
  _hoverType (this w') = _hoverType (this w) ->
  _hoverIndex (this w') = _hoverIndex (this w) ->
  hoverValid w -> hoverValid w'.
Proof. unfold hoverValid. intros -> -> ->. auto. Qed.

Lemma get_set_some (A : Type) (a : JsArray.t A) (k i : Z) (v : A) :
  (exists l, JsArray.get a i = Some l) ->
  exists l, JsArray.get (JsArray.set a k v) i = Some l.
Proof.
  intros [l Hl]. destruct (Z.eq_dec k i) as [<-|Hne].
  - exists v. apply get_set_eq.
  - exists l. now rewrite get_set_ne.
Qed.

(** The slot a point hit was found in holds a reference. *)
Lemma get_of_view_slot (w : World) (pre : list TPPoint) (tp : TPPoint)
  (post : list (option TPPoint)) :
  JsArray.items (tpPoints w) = List.map Some pre ++ Some tp :: post ->
  exists l,
    JsArray.get (_tpPoints (this w)) (Z.of_nat (List.length pre)) = Some l.
Proof.
  intros H.
  assert (Hn : nth_error (JsArray.items (tpPoints w)) (List.length pre)
               = Some (Some tp)).
  { rewrite H. rewrite nth_error_app2; rewrite length_map; [|lia].
    now rewrite Nat.sub_diag. }
  unfold tpPoints in Hn. cbn [JsArray.items] in Hn.
  rewrite nth_error_map in Hn.
  unfold JsArray.get.
  replace (Z.of_nat (List.length pre) <? 0) with false
    by (symmetry; apply Z.ltb_ge; lia).
  rewrite Nat2Z.id.
  destruct (nth_error (JsArray.items (_tpPoints (this w))) (List.length pre))
    as [[l|]|]; try discriminate Hn.
  now exists l.
Qed.

Lemma reachable_hoverValid (onCircle : XY -> Q -> XY -> bool) (w : World) :
  reachable onCircle w -> hoverValid w.
Proof.
  induction 1 as [h id0 name0 K cd xa ya | pt w _ IH | w _ IH
                 | pt w w' r _ IH Hc | pt w w' _ IH Hd | w _ IH].
  - reflexivity.
  - unfold hoverValid in *. unfold mouseMoveForDrawing.
    cbn [alloc baseExtension performMouseMoveForDrawing this with_tpPoints
         _tpPoints _hoverType _hoverIndex].
    destruct (_hoverType (this w)); auto.
    destruct IH as [H0 Hl]. split; [exact H0|]. now apply get_set_some.
  - revert IH. apply hoverValid_same;
      unfold mouseLeftButtonDownForDrawing;
      destruct (_drawStep (this w) =? _totalStep (this w) - 1); reflexivity.
  - unfold checkMousePointOnGraphic in Hc.
    destruct (checkPlacedPoints (baseExtension onCircle) (this w) pt 0 []
                (JsArray.items (tpPoints w))) as [[found xy]|e] eqn:E;
      cbn [bind fst snd] in Hc; [|discriminate Hc].
    apply checkPlacedPoints_inv in E. destruct found as [k|].
    + inversion Hc; subst. clear Hc.
      destruct E as (pre & tp & post & Hs & Hk & _ & _).
      rewrite Z.add_0_l in Hk. subst k. unfold hoverValid.
      cbn [this setHover with_hover _hoverType _hoverIndex _tpPoints].
      split; [lia|].
      exact (@get_of_view_slot w pre tp post Hs).
    + cbn in Hc. inversion Hc; subst. reflexivity.
  - unfold mousePressedMove in Hd.
    destruct (HoverType_eqb (_hoverType (this w)) POINT
              && negb (_hoverIndex (this w) =? -1)).
    + destruct (JsArray.get (_tpPoints (this w)) (_hoverIndex (this w)));
        inversion Hd; subst. revert IH. now apply hoverValid_same.
    + inversion Hd; subst. exact IH.
  - reflexivity.
Qed.

(** X8.  In every world the class as written can reach, no two keys of
    the points array share a point object, the hover fields are either
    (NONE, -1) or (POINT, an index that holds a point), never OTHER, and
    [mousePressedMove] therefore never throws. *)
Theorem reachable_marks_are_sound (onCircle : XY -> Q -> XY -> bool)
  (w : World) :
  reachable onCircle w ->
  wellFormed w
  /\ hoverValid w
  /\ (forall pt,
        exists w', mousePressedMove (baseExtension onCircle) pt w = Ok w').
Proof.
  intros Hr. pose proof (reachable_hoverValid Hr) as Hv.
  split; [now apply (reachable_wellFormed Hr)|]. split; [exact Hv|].
  intros pt. unfold mousePressedMove. unfold hoverValid in Hv.
  destruct (_hoverType (this w)); cbn [HoverType_eqb andb].
  - contradiction.
  - destruct Hv as [H0 [l Hl]]. rewrite Hl.
    destruct (negb (_hoverIndex (this w) =? -1)); eexists; reflexivity.
  - eexists; reflexivity.
Qed.

Lemma reachable_marks_witness :
  exists w',
    mousePressedMove base (px 150 60)
      (setHover (segmentPlaced base) POINT 1) = Ok w'.
Proof.
  refine (proj2 (proj2 (@reachable_marks_are_sound onCircle
                          (setHover (segmentPlaced base) POINT 1) _)) _).
  apply (@reach_check onCircle (px 201 81) (segmentPlaced base) _ (RetBool true)).
  - exact segmentPlaced_reachable.
  - reflexivity.
Defined.

End Reachable.

(* ====================================================================== *)
(** * GraphicMark: tracking the mouse *)
(* ====================================================================== *)

Section Tracking.

Import JS GraphicMark Scenario Samples MarkCoverage.

Lemma map_set_nth (A B : Type) (f : A -> B) (n : nat) (v : A)
  (l : list (option A)) :
  List.map (option_map f) (JsArray.set_nth n v l)
  = JsArray.set_nth n (f v) (List.map (option_map f) l).
Proof.
  revert l. induction n as [|n IH]; intros [|s l]; cbn; try reflexivity.
  - now rewrite (IH []).
  - now rewrite IH.
Qed.

Lemma set_nth_twice (A : Type) (n : nat) (u v : A) (l : list (option A)) :
  JsArray.set_nth n v (JsArray.set_nth n u l) = JsArray.set_nth n v l.
Proof.
  revert l. induction n as [|n IH]; intros [|s l]; cbn; try reflexivity.
  - now rewrite (IH []).
  - now rewrite IH.
Qed.

(** A reference held in a slot is allocated. *)
Lemma slot_allocated (w : World) (l : loc) :
  wellFormed w ->
  In (Some l) (JsArray.items (_tpPoints (this w))) ->
  (l < next (heap w))%nat.
Proof.
  intros [_ Hb] Hin. apply In_nth_error in Hin. destruct Hin as [n Hn].
  apply (Hb (Z.of_nat n)). unfold JsArray.get.
  replace (Z.of_nat n <? 0) with false by (symmetry; apply Z.ltb_ge; lia).
  now rewrite Nat2Z.id, Hn.
Qed.

(** The placed points after one tracked move, for the class as written. *)
Lemma items_after_move (onCircle : XY -> Q -> XY -> bool) (pt : XY) (w : World) :
  wellFormed w ->
  JsArray.items (tpPoints (mouseMoveForDrawing (baseExtension onCircle) pt w))
  = if _drawStep (this w) - 1 <? 0 then JsArray.items (tpPoints w)
    else JsArray.set_nth (Z.to_nat (_drawStep (this w) - 1))
           (derived (this w) pt) (JsArray.items (tpPoints w)).
Proof.
  intros Hwf. unfold mouseMoveForDrawing, tpPoints.
  cbn [alloc baseExtension performMouseMoveForDrawing this heap with_tpPoints
       _tpPoints cell JsArray.items].
  assert (Hold : forall o,
    List.map (option_map
                (fun l' => if Nat.eqb l' (next (heap w))
                           then o else cell (heap w) l'))
      (JsArray.items (_tpPoints (this w)))
    = List.map (option_map (cell (heap w))) (JsArray.items (_tpPoints (this w)))).
  { intros o. apply map_ext_in. intros [l|] Hin; [|reflexivity]. cbn.
    pose proof (@slot_allocated w l Hwf Hin) as Hl.
    destruct (Nat.eqb l (next (heap w))) eqn:E;
      [apply Nat.eqb_eq in E; lia | reflexivity]. }
  unfold JsArray.set. destruct (_drawStep (this w) - 1 <? 0);
    cbn [JsArray.items].
  - apply Hold.
  - rewrite map_set_nth, Nat.eqb_refl, Hold. reflexivity.
Qed.

(** X9.  Of two mouse moves in a row only the last one counts: the placed
    points are the same as after the second move alone, and the step does
    not change. *)
Theorem tracking_keeps_only_the_last_move
  (onCircle : XY -> Q -> XY -> bool) (p1 p2 : XY) (w : World) :
  wellFormed w ->
  let ext := baseExtension onCircle in
  JsArray.items (tpPoints (mouseMoveForDrawing ext p2
                             (mouseMoveForDrawing ext p1 w)))
  = JsArray.items (tpPoints (mouseMoveForDrawing ext p2 w))
  /\ _drawStep (this (mouseMoveForDrawing ext p2 (mouseMoveForDrawing ext p1 w)))
     = _drawStep (this w).
Proof.
  intros Hwf ext. split; [|reflexivity]. unfold ext.
  rewrite (@items_after_move onCircle p2 _ (@wellFormed_move onCircle p1 w Hwf)).
  rewrite !(fun p => @items_after_move onCircle p w Hwf).
  change (_drawStep (this (mouseMoveForDrawing (baseExtension onCircle) p1 w)))
    with (_drawStep (this w)).
  change (derived (this (mouseMoveForDrawing (baseExtension onCircle) p1 w)) p2)
    with (derived (this w) p2).
  destruct (_drawStep (this w) - 1 <? 0); [reflexivity|].
  apply set_nth_twice.
Qed.

Lemma tracking_witness :
  JsArray.items (tpPoints (mouseMoveForDrawing base (px 30 40)
                             (mouseMoveForDrawing base (px 10 20) (fresh 3))))
  = JsArray.items (tpPoints (mouseMoveForDrawing base (px 30 40) (fresh 3))).
Proof.
  refine (proj1 (@tracking_keeps_only_the_last_move onCircle (px 10 20)
                   (px 30 40) (fresh 3) _)).
  apply (@reachable_wellFormed onCircle). apply reach_new.
Defined.

Lemma xyPoints_of_items (m : GraphicMark) (a b : JsArray.t TPPoint) :
  JsArray.items a = JsArray.items b ->
  JsArray.map (xyPointOf m) a = JsArray.map (xyPointOf m) b.
Proof. unfold JsArray.map. now intros ->. Qed.

(** X10.  A mouse move on a finished mark writes no slot of the points
    array: the placed points are as before, the mark stays finished, and
    [draw] gives the same result. *)
Theorem move_on_finished_mark_changes_nothing_drawn
  (onCircle : XY -> Q -> XY -> bool) (pt : XY) (w : World) :
  wellFormed w ->
  isDrawing w = false ->
  let w' := mouseMoveForDrawing (baseExtension onCircle) pt w in
  JsArray.items (tpPoints w') = JsArray.items (tpPoints w)
  /\ isDrawing w' = false
  /\ draw (baseExtension onCircle) w' = draw (baseExtension onCircle) w.
Proof.
  intros Hwf Hfin w'. unfold isDrawing in Hfin.
  apply negb_false_iff, Z.eqb_eq in Hfin.
  assert (Hitems : JsArray.items (tpPoints w') = JsArray.items (tpPoints w)).
  { unfold w'. rewrite (@items_after_move onCircle pt w Hwf). now rewrite Hfin. }
  split; [exact Hitems|]. split.
  - unfold isDrawing.
    change (_drawStep (this w')) with (_drawStep (this w)). now rewrite Hfin.
  - assert (Hxy : JsArray.map (xyPointOf (this w')) (tpPoints w')
                  = JsArray.map (xyPointOf (this w)) (tpPoints w)).
    { change (xyPointOf (this w')) with (xyPointOf (this w)).
      now apply xyPoints_of_items. }
    unfold draw. cbv zeta. rewrite Hxy. reflexivity.
Qed.

Lemma move_on_finished_witness :
  draw base (mouseMoveForDrawing base (px 300 90) (segmentPlaced base))
  = draw base (segmentPlaced base).
Proof.
  refine (proj2 (proj2 (@move_on_finished_mark_changes_nothing_drawn onCircle
                          (px 300 90) (segmentPlaced base) _ _))).
  - exact (reachable_wellFormed segmentPlaced_reachable).
  - reflexivity.
Defined.

End Tracking.

(* ====================================================================== *)
(** * DrawWidget: levels, sizes and the frame queue *)
(* ====================================================================== *)

Section WidgetMore.

Import DrawWidget WidgetScenario WidgetSamples WidgetCoverage.

(** X11.  [updateImp] behaves the same for ALL and for DRAWER, and when
    the size changes it behaves the same for any two levels. *)
Theorem requested_level_is_irrelevant_on_resize
  (l1 l2 : UpdateLevel) (bounding : Bounding) (w : World) :
  updateImp ALL bounding w = updateImp DRAWER bounding w
  /\ (sizeFlag bounding (container w) = true ->
      updateImp l1 bounding w = updateImp l2 bounding w).
Proof.
  split.
  - unfold updateImp.
    destruct (sizeFlag bounding (container (with_container w _))); reflexivity.
  - intros H. unfold updateImp.
    change (sizeFlag bounding (container (with_container w _)))
      with (sizeFlag bounding (container w)).
    rewrite H. reflexivity.
Qed.

Lemma requested_level_witness :
  updateImp MAIN pane (initial 2) = updateImp OVERLAY pane (initial 2).
Proof.
  apply (proj2 (requested_level_is_irrelevant_on_resize MAIN OVERLAY pane
                  (initial 2))).
  reflexivity.
Defined.

Lemma optimalUpdate_canvases (u : Update) (w : World) :
  _mainCanvas (_optimalUpdate u w) = _mainCanvas w
  /\ _overlayCanvas (_optimalUpdate u w) = _overlayCanvas w.
Proof.
  unfold _optimalUpdate.
  destruct (negb (_requestAnimationId w =? DEFAULT_REQUEST_ID)); auto.
Qed.

(** X12.  After one call the container has the size asked for, so a
    second call with the same bounding is not a resize: it leaves both
    backing stores as they are and scales neither context again. *)
Theorem size_settles_after_one_call
  (l l' : UpdateLevel) (bounding : Bounding) (w : World) :
  let w1 := updateImp l bounding w in
  let w2 := updateImp l' bounding w1 in
  sizeFlag bounding (container w1) = false
  /\ (width (_mainCanvas w2) = width (_mainCanvas w1)
      /\ height (_mainCanvas w2) = height (_mainCanvas w1)
      /\ width (_overlayCanvas w2) = width (_overlayCanvas w1)
      /\ height (_overlayCanvas w2) = height (_overlayCanvas w1))
  /\ filter isScale (calls (_mainCanvas w2))
     = filter isScale (calls (_mainCanvas w1))
  /\ filter isScale (calls (_overlayCanvas w2))
     = filter isScale (calls (_overlayCanvas w1)).
Proof.
  intros w1 w2.
  assert (Hflag : sizeFlag bounding (container w1) = false).
  { destruct (updateImp_container l bounding w) as [Hw Hh]. fold w1 in Hw, Hh.
    unfold sizeFlag. rewrite Hw, Hh, !Z.eqb_refl. reflexivity. }
  split; [exact Hflag|].
  unfold w2, updateImp.
  change (sizeFlag bounding (container (with_container w1 _)))
    with (sizeFlag bounding (container w1)).
  rewrite Hflag.
  match goal with
  | |- context [_optimalUpdate ?u ?w0] =>
      destruct (optimalUpdate_canvases u w0) as [Hm Ho]; rewrite Hm, Ho
  end.
  destruct l'; cbn; rewrite ?filter_app; cbn; rewrite ?app_nil_r; auto.
Qed.

Lemma step_mailbox (s : Step) (w : World) :
  coalesced w ->
  mailbox (run [s] w) = post s (mailbox w) /\ coalesced (run [s] w).
Proof.
  intros Hc. destruct s as [level b|]; cbn [run].
  - split; [|now apply updateImp_coalesced].
    destruct (updateImp_pending level b Hc) as (Hp & _ & _ & He).
    destruct (updateImp_container level b w) as [Hw Hh].
    unfold mailbox, post. rewrite Hp, He, Hw, Hh.
    cbn [box_width box_height delivered]. unfold sizeFlag, dispatch.
    f_equal. f_equal.
    destruct (negb (bounding_width b =? container_offsetWidth (container w))
              || negb (bounding_height b =? container_offsetHeight (container w)));
      reflexivity.
  - split; [|now apply fireFrame_coalesced].
    unfold mailbox, post, fireFrame. cbn.
    destruct Hc as [_ [Hp|[_ [u Hp]]]]; rewrite Hp; reflexivity.
Qed.

Lemma run_app (s1 s2 : list Step) (w : World) :
  run (s1 ++ s2) w = run s2 (run s1 w).
Proof.
  revert w. induction s1 as [|[level b|] s1 IH]; intros w; cbn; auto.
Qed.

Lemma run_mailbox (steps : list Step) :
  forall w, coalesced w ->
  mailbox (run steps w) = posts steps (mailbox w) /\ coalesced (run steps w).
Proof.
  induction steps as [|s steps IH]; intros w Hc; [auto|].
  destruct (step_mailbox s Hc) as [Hm Hc1].
  change (s :: steps) with ([s] ++ steps). rewrite run_app.
  destruct (IH _ Hc1) as [Hm' Hc'].
  split; [|exact Hc'].
  rewrite Hm', Hm. reflexivity.
Qed.

Lemma posts_delivered (steps : list Step) :
  forall b,
  (List.length (delivered (posts steps b))
   <= List.length (delivered b) + List.length (filter isFrame steps))%nat.
Proof.
  induction steps as [|s steps IH]; intros b; cbn [posts fold_left]; [lia|].
  fold (posts steps (post s b)). specialize (IH (post s b)).
  destruct s as [level bd|]; cbn [filter isFrame List.length post delivered] in *.
  - exact IH.
  - rewrite length_app in IH. destruct (slot b); cbn [List.length] in IH; lia.
Qed.

(** X13.  For any interleaving of [updateImp] calls and fired frames, a
    widget whose queue is coalesced behaves like a one-slot mailbox: each
    call replaces the waiting redraw, each frame runs the waiting one if
    there is one.  The queue stays coalesced, and no more redraws have run
    than frames were fired. *)
Theorem widget_is_a_one_slot_mailbox (steps : list Step) (w : World) :
  coalesced w ->
  mailbox (run steps w) = posts steps (mailbox w)
  /\ coalesced (run steps w)
  /\ (List.length (executed (run steps w))
      <= List.length (executed w) + List.length (filter isFrame steps))%nat.
Proof.
  intros Hc. destruct (run_mailbox steps Hc) as [Hm Hc'].
  split; [exact Hm|]. split; [exact Hc'|].
  change (executed (run steps w)) with (delivered (mailbox (run steps w))).
  rewrite Hm. apply (posts_delivered steps (mailbox w)).
Qed.

Lemma mailbox_witness :
  let steps := [Call MAIN pane; Call OVERLAY pane; Frame; Frame;
                Call OVERLAY pane; Call MAIN pane; Frame] in
  mailbox (run steps (initial 2)) = posts steps (mailbox (initial 2)).
Proof.
  intros steps.
  exact (proj1 (@widget_is_a_one_slot_mailbox steps (initial 2)
                  (initial_coalesced 2))).
Defined.

Example mailbox_sample :
  executed (run [Call MAIN pane; Call OVERLAY pane; Frame; Frame;
                 Call OVERLAY pane; Call MAIN pane; Frame] (initial 2))
  = [UpdateOverlay; UpdateMain].
Proof. vm_compute. reflexivity. Qed.

End WidgetMore.

(* ====================================================================== *)
(** * CandleAreaView: what the first loop collects *)
(* ====================================================================== *)

Section AreaCollect.

Import JS CandleAreaView AreaScenario AreaSamples AreaCoverage.

Variable env : Env.

Lemma visit_plotted (i : Z) (d : VisibleData) (c : Collected) :
  visit env i d c
  = match plotted env d with
    | Some p =>
        {| coordinates := coordinates c ++ [p];
           minY := Qmin (minY c) (y p);
           areaStartX := if i =? 0 then data_x d else areaStartX c;
           indicatePointCoordinate :=
             if dataIndex d =? dataListLength env - 1 then Some p
             else indicatePointCoordinate c |}
    | None => c
    end.
Proof.
  unfold visit, plotted, numeric.
  destruct (match data d with
            | Some kLineData => kLineData (value (areaStyles env))
            | None => None
            end); reflexivity.
Qed.

Lemma eachChildren_coordinates (l : list VisibleData) :
  forall i c,
  coordinates (eachChildren env i l c)
  = coordinates c ++ present (List.map (plotted env) l).
Proof.
  induction l as [|d l IH]; intros i c; cbn [eachChildren List.map present].
  - now rewrite app_nil_r.
  - rewrite IH, visit_plotted.
    destruct (plotted env d) as [p|]; cbn [coordinates present];
      [now rewrite <- app_assoc | reflexivity].
Qed.

Lemma length_present (A : Type) (l : list (option A)) :
  (List.length (present l) <= List.length l)%nat.
Proof. induction l as [|[a|] l IH]; cbn; lia. Qed.

(** X14.  The coordinates [drawImp] collects are the pixel points of the
    visible elements that have a numeric value, in order; elements without
    one are skipped, and nothing is collected exactly when no visible
    element has a value. *)
Theorem area_plots_the_numeric_points_in_order :
  coordinates (collect env) = present (List.map (plotted env) (visible env))
  /\ (List.length (coordinates (collect env))
      <= List.length (visible env))%nat
  /\ (coordinates (collect env) = [] <->
      forall d, In d (visible env) -> numeric env d = None).
Proof.
  assert (H : coordinates (collect env)
              = present (List.map (plotted env) (visible env))).
  { unfold collect. now rewrite eachChildren_coordinates. }
  split; [exact H|]. split.
  - rewrite H. etransitivity; [apply length_present|]. now rewrite length_map.
  - rewrite H. clear H. induction (visible env) as [|d l IH]; cbn [List.map present].
    + split; [intros _ d [] | reflexivity].
    + unfold plotted at 1. destruct (numeric env d) as [v|] eqn:E.
      * split; [discriminate|]. intros Hall.
        specialize (Hall d (or_introl eq_refl)). congruence.
      * rewrite IH. split.
        -- intros Hall d' [<-|Hin]; auto.
        -- intros Hall d' Hin. apply Hall. now right.
Qed.

Lemma Qmin_le_l (a b : Q) : (Qmin a b <= a)%Q.
Proof.
  unfold Qmin. destruct (Qle_bool a b) eqn:E; [apply Qle_refl|].
  apply Qlt_le_weak, Qnot_le_lt. intros H. apply Qle_bool_iff in H. congruence.
Qed.

Lemma Qmin_le_r (a b : Q) : (Qmin a b <= b)%Q.
Proof.
  unfold Qmin. destruct (Qle_bool a b) eqn:E; [now apply Qle_bool_iff|].
  apply Qle_refl.
Qed.

Lemma Qmin_cases (a b : Q) : Qmin a b = a \/ Qmin a b = b.
Proof. unfold Qmin. destruct (Qle_bool a b); auto. Qed.

Lemma eachChildren_minY (l : list VisibleData) :
  forall i c,
  let c' := eachChildren env i l c in
  (minY c' <= minY c)%Q
  /\ (forall p, In p (present (List.map (plotted env) l)) ->
                (minY c' <= y p)%Q)
  /\ (minY c' = minY c
      \/ exists p, In p (present (List.map (plotted env) l))
                   /\ minY c' = y p).
Proof.
  induction l as [|d l IH]; intros i c; cbv zeta;
    cbn [eachChildren List.map present].
  - split; [apply Qle_refl|]. split; [intros p []|now left].
  - destruct (IH (i + 1) (visit env i d c)) as (H1 & H2 & H3).
    rewrite visit_plotted in *.
    destruct (plotted env d) as [p|]; cbn [minY present] in *.
    + split; [|split].
      * eapply Qle_trans; [exact H1 | apply Qmin_le_l].
      * intros q [<-|Hin]; [|now apply H2].
        eapply Qle_trans; [exact H1 | apply Qmin_le_r].
      * destruct H3 as [H3|[q [Hin Hq]]].
        -- destruct (Qmin_cases (minY c) (y p)) as [E|E].
           ++ left. now rewrite H3.
           ++ right. exists p. split; [now left | now rewrite H3].
        -- right. exists q. split; [now right | exact Hq].
    + auto.
Qed.

(** X15.  The collected [minY] is at most [MAX_SAFE_INTEGER] and at most
    the ordinate of every collected point, and it is one of those values. *)
Theorem minY_is_the_least_plotted_ordinate :
  (minY (collect env) <= MAX_SAFE_INTEGER)%Q
  /\ (forall p, In p (coordinates (collect env)) ->
                (minY (collect env) <= y p)%Q)
  /\ (minY (collect env) = MAX_SAFE_INTEGER
      \/ exists p, In p (coordinates (collect env))
                   /\ minY (collect env) = y p).
Proof.
  assert (Hc : coordinates (collect env)
               = present (List.map (plotted env) (visible env))).
  { unfold collect. now rewrite eachChildren_coordinates. }
  rewrite Hc. unfold collect.
  exact (eachChildren_minY (visible env) 0
           {| coordinates := []; minY := MAX_SAFE_INTEGER; areaStartX := 0;
              indicatePointCoordinate := None |}).
Qed.

End AreaCollect.

Section AreaPoint.

Import JS CandleAreaView AreaScenario AreaSamples AreaCoverage.

Variable env : Env.

Lemma eachChildren_areaStartX (l : list VisibleData) :
  forall i c, 0 < i ->
  areaStartX (eachChildren env i l c) = areaStartX c.
Proof.
  induction l as [|d l IH]; intros i c Hi; cbn [eachChildren]; [reflexivity|].
  rewrite IH by lia. rewrite visit_plotted.
  destruct (plotted env d); [|reflexivity]. cbn [areaStartX].
  destruct (i =? 0) eqn:E; [apply Z.eqb_eq in E; lia | reflexivity].
Qed.

(** X16.  [areaStartX] is the abscissa of the first visible element when
    that element has a numeric value, and [0] otherwise, whatever the later
    elements are. *)
Theorem area_starts_at_the_first_visible_element :
  areaStartX (collect env)
  = match visible env with
    | [] => 0%Q
    | d :: _ => match numeric env d with
                | Some _ => data_x d
                | None => 0%Q
                end
    end.
Proof.
  unfold collect. destruct (visible env) as [|d l]; [reflexivity|].
  cbn [eachChildren]. rewrite eachChildren_areaStartX by lia.
  rewrite visit_plotted. unfold plotted.
  destruct (numeric env d); reflexivity.
Qed.

Lemma eachChildren_indicate (l : list VisibleData) :
  forall i c,
  let c' := eachChildren env i l c in
  (forall p, indicatePointCoordinate c' = Some p ->
     indicatePointCoordinate c = Some p
     \/ exists d, In d l /\ dataIndex d = dataListLength env - 1
                  /\ plotted env d = Some p)
  /\ (indicatePointCoordinate c' = None ->
      indicatePointCoordinate c = None
      /\ forall d, In d l -> dataIndex d = dataListLength env - 1 ->
                   plotted env d = None).
Proof.
  induction l as [|d l IH]; intros i c; cbv zeta; cbn [eachChildren].
  - split; [auto|]. intros H. split; [exact H | intros d []].
  - destruct (IH (i + 1) (visit env i d c)) as [H1 H2].
    rewrite visit_plotted in *.
    destruct (plotted env d) as [q|] eqn:Eq;
      cbn [indicatePointCoordinate] in *.
    + destruct (dataIndex d =? dataListLength env - 1) eqn:E.
      * apply Z.eqb_eq in E. split.
        -- intros p Hp. right. destruct (H1 p Hp) as [Hq|(d' & Hin & Hd & Hpl)].
           ++ exists d. inversion Hq; subst. repeat split; auto. now left.
           ++ exists d'. repeat split; auto. now right.
        -- intros Hn. destruct (H2 Hn) as [Habs _]. discriminate Habs.
      * apply Z.eqb_neq in E. split.
        -- intros p Hp. destruct (H1 p Hp) as [Hq|(d' & Hin & Hd & Hpl)];
             [now left|]. right. exists d'. repeat split; auto. now right.
        -- intros Hn. destruct (H2 Hn) as [Hc Hall]. split; [exact Hc|].
           intros d' [<-|Hin] Hd; [congruence | now apply Hall].
    + split.
      * intros p Hp. destruct (H1 p Hp) as [Hq|(d' & Hin & Hd & Hpl)];
          [now left|]. right. exists d'. repeat split; auto. now right.
      * intros Hn. destruct (H2 Hn) as [Hc Hall]. split; [exact Hc|].
        intros d' [<-|Hin] Hd; [exact Eq | now apply Hall].
Qed.

(** X17.  The indicator point, when there is one, is the pixel point of a
    visible element whose [dataIndex] is the last index of the data list;
    there is none exactly when no visible element with that index has a
    numeric value. *)
Theorem indicator_is_the_last_data_point :
  (forall p, indicatePointCoordinate (collect env) = Some p ->
     exists d, In d (visible env)
               /\ dataIndex d = dataListLength env - 1
               /\ plotted env d = Some p)
  /\ (indicatePointCoordinate (collect env) = None <->
      forall d, In d (visible env) ->
                dataIndex d = dataListLength env - 1 ->
                numeric env d = None).
Proof.
  unfold collect.
  destruct (eachChildren_indicate (visible env) 0
              {| coordinates := []; minY := MAX_SAFE_INTEGER; areaStartX := 0;
                 indicatePointCoordinate := None |}) as [H1 H2].
  cbv zeta in H1, H2. cbn [indicatePointCoordinate] in H1, H2.
  split; [|split].
  - intros p Hp. destruct (H1 p Hp) as [Habs|H]; [discriminate Habs | exact H].
  - intros Hn d Hin Hd. destruct (H2 Hn) as [_ Hall].
    specialize (Hall d Hin Hd). unfold plotted in Hall.
    destruct (numeric env d); [discriminate Hall | reflexivity].
  - intros Hall.
    destruct (indicatePointCoordinate
                (eachChildren env 0 (visible env)
                   {| coordinates := []; minY := MAX_SAFE_INTEGER;
                      areaStartX := 0; indicatePointCoordinate := None |}))
      as [p|] eqn:E; [|reflexivity].
    destruct (H1 p eq_refl) as [Habs|(d & Hin & Hd & Hpl)];
      [discriminate Habs|].
    unfold plotted in Hpl. rewrite (Hall d Hin Hd) in Hpl. discriminate Hpl.
Qed.

End AreaPoint.

(* ====================================================================== *)
(** * CandleAreaView: the rest of the pass *)
(* ====================================================================== *)

Section AreaPass.

Import JS CandleAreaView AreaScenario AreaSamples AreaCoverage.

Lemma eachChildren_gaps env (l : list VisibleData) :
  (forall d, In d l -> numeric env d = None) ->
  forall i c, eachChildren env i l c = c.
Proof.
  induction l as [|d l IH]; intros H i c; cbn [eachChildren]; [reflexivity|].
  rewrite IH by (intros; apply H; now right).
  rewrite visit_plotted. unfold plotted. now rewrite (H d (or_introl eq_refl)).
Qed.

(** X18.  When no visible element has a numeric value (in particular when
    nothing is visible), the pass draws nothing: all it does is stop the
    animation.  The ripple figure is kept.  The frame time changes only
    when the driver hands its callback a last frame on the way: the
    callback then stores that time and asks for a pane update. *)
Theorem nothing_to_plot_only_stops_the_animation (env : Env) (v : View) :
  (forall d, In d (visible env) -> numeric env d = None) ->
  drawImp env v
  = (AnimationStop :: match lastFrame env (_animation v) with
                      | Some _ => [UpdatePane (paneId env)]
                      | None => []
                      end,
     {| _figure := _figure v;
        _animationFrameTime := match lastFrame env (_animation v) with
                               | Some time => time
                               | None => _animationFrameTime v
                               end;
        _animation := stop (_animation v) |},
     None).
Proof.
  intros H. unfold drawImp, collect. rewrite (eachChildren_gaps env _ H).
  unfold andThen, areaPart, pointPart, tell. cbn [coordinates app].
  cbn [indicatePointCoordinate].
  destruct (show (point (areaStyles env))); rewrite stopAnimation_eq;
    reflexivity.
Qed.

(** Nothing to plot and a driver that is not running: the view keeps its
    frame time. *)
Lemma nothing_to_plot_witness :
  drawImp gaps idle
  = ([AnimationStop],
     {| _figure := None; _animationFrameTime := 0;
        _animation := {| running := false; duration := 500 |} |},
     None).
Proof.
  apply (@nothing_to_plot_only_stops_the_animation gaps idle).
  intros d [<-|[<-|[]]]; reflexivity.
Defined.

(** The ripple was drawn with the animation on, then the data went away:
    the stopped driver hands the callback the full duration, which becomes
    the frame time, and the callback asks for a pane update. *)
Example stop_after_ripple_sample :
  fst (fst (drawImp gaps (viewAfter badStops idle)))
  = [AnimationStop; UpdatePane "candle_pane"]
  /\ _animationFrameTime (viewAfter gaps (viewAfter badStops idle)) = 1000%Q
  /\ _animation (viewAfter gaps (viewAfter badStops idle))
     = {| running := false; duration := 1000 |}.
Proof. vm_compute. auto. Qed.

Lemma viewAfter_pointPart (env : Env) (v : View) :
  viewAfter env v = snd (fst (pointPart env (collect env) v)).
Proof.
  unfold viewAfter, drawImp, andThen.
  destruct (areaPart env (collect env) v) as [[t1 v1] r1] eqn:Ea.
  assert (Hv : v1 = v /\ r1 = None).
  { unfold areaPart in Ea. destruct (coordinates (collect env)).
    - inversion Ea; auto.
    - unfold andThen, tell in Ea.
      pose proof (fillColor_caught env (collect env)) as Hf.
      destruct (fillColor env (collect env)) as [[t style] r].
      cbn in Hf. subst r. inversion Ea; auto. }
  destruct Hv as [-> ->].
  destruct (pointPart env (collect env) v) as [[t2 v2] r2]. reflexivity.
Qed.

(** X19.  A view that already holds its ripple figure keeps it across a
    draw pass: the figure afterwards has the same name and the same styles,
    being either the very same figure or that figure moved to the indicator
    point.  The pass itself never writes the frame time: it is unchanged
    when the indicator point is drawn, and otherwise it is the time of the
    last frame, if the stopped driver hands one to the callback. *)
Theorem ripple_figure_is_kept (env : Env) (v : View) (f : Figure) :
  _figure v = Some f ->
  (exists f',
     _figure (viewAfter env v) = Some f'
     /\ name f' = name f
     /\ styles f' = styles f
     /\ (f' = f
         \/ exists p ripple,
              indicatePointCoordinate (collect env) = Some p
              /\ attrs f' = CircleAttrs (x p) (y p) ripple))
  /\ _animationFrameTime (viewAfter env v)
     = match show (point (areaStyles env)),
             indicatePointCoordinate (collect env),
             lastFrame env (_animation v) with
       | true, Some _, _ => _animationFrameTime v
       | _, _, Some time => time
       | _, _, None => _animationFrameTime v
       end.
Proof.
  intros Hf. rewrite viewAfter_pointPart. unfold pointPart.
  destruct (show (point (areaStyles env)));
    destruct (indicatePointCoordinate (collect env)) as [p|];
    rewrite ?stopAnimation_eq;
    cbn [fst snd _figure _animationFrameTime];
    try (split; [exists f; repeat split; auto
                | destruct (lastFrame env (_animation v)); reflexivity]; fail).
  rewrite Hf. split; [|reflexivity].
  eexists. split; [reflexivity|]. repeat split.
  right. eexists. eexists. split; reflexivity.
Qed.

Lemma ripple_figure_witness :
  exists f',
    _figure (viewAfter badStops (viewAfter badStops idle)) = Some f'
    /\ name f' = "circle"%string.
Proof.
  destruct (proj1 (@ripple_figure_is_kept badStops (viewAfter badStops idle)
              {| name := "circle";
                 attrs := CircleAttrs 25 (500 - 135) 8;
                 styles := FillStyles "rgba(33, 150, 243, 0.3)" |}
              eq_refl)) as (f' & Hf & Hn & _).
  exists f'. split; [exact Hf | exact Hn].
Defined.


End AreaPass.

Section AreaLog.

Import JS CandleAreaView AreaScenario AreaSamples AreaCoverage.

Lemma drawOpt_quiet (f : option Figure) :
  Forall (fun ev => isLog ev = false) (drawOpt f).
Proof. destruct f; repeat constructor. Qed.

Lemma pointPart_quiet (env : Env) (c : Collected) (v : View) :
  Forall (fun ev => isLog ev = false) (fst (fst (pointPart env c v))).
Proof.
  unfold pointPart.
  destruct (show (point (areaStyles env))), (indicatePointCoordinate c);
    rewrite ?stopAnimation_eq; cbn [fst];
    try (destruct (lastFrame env (_animation v)); repeat constructor; fail).
  repeat (apply Forall_app; split); try apply drawOpt_quiet;
    destruct (animation (point (areaStyles env))); repeat constructor.
Qed.

Lemma fillColor_quiet (env : Env) (c : Collected) :
  match backgroundColor (areaStyles env) with
  | Solid _ => True
  | Stops stops => forall s, In s stops -> colorStopError env s = None
  end ->
  Forall (fun ev => isLog ev = false) (fst (fst (fillColor env c))).
Proof.
  unfold fillColor. destruct (backgroundColor (areaStyles env)) as [s|stops].
  - constructor.
  - intros H. unfold tryAddColorStops.
    rewrite (@addColorStops_ok env stops H). cbn [fst].
    constructor; [reflexivity|]. apply Forall_map.
    apply Forall_forall. reflexivity.
Qed.

(** X21.  A pass whose background is a plain colour, or an array of stops
    that the canvas all accepts, logs nothing. *)
Theorem no_log_without_a_failing_stop (env : Env) (v : View) :
  match backgroundColor (areaStyles env) with
  | Solid _ => True
  | Stops stops => forall s, In s stops -> colorStopError env s = None
  end ->
  Forall (fun ev => isLog ev = false) (fst (fst (drawImp env v))).
Proof.
  intros H. unfold drawImp, andThen.
  pose proof (pointPart_quiet env (collect env) v) as Hp.
  assert (Ha : forall t v1 r, areaPart env (collect env) v = (t, v1, r) ->
                 Forall (fun ev => isLog ev = false) t /\ v1 = v).
  { intros t v1 r. unfold areaPart. destruct (coordinates (collect env)).
    - intros E. inversion E. split; [constructor | reflexivity].
    - unfold andThen, tell.
      pose proof (fillColor_quiet env (collect env) H) as Hq.
      destruct (fillColor env (collect env)) as [[t0 style] r0]. cbn [fst] in Hq.
      destruct r0; intros E; inversion E; subst; split; auto;
        repeat (apply Forall_app; split); auto; try apply drawOpt_quiet.
      unfold areaPath. repeat constructor. }
  destruct (areaPart env (collect env) v) as [[t1 v1] r1] eqn:Ea.
  destruct (Ha t1 v1 r1 eq_refl) as [Ht ->].
  destruct r1; [exact Ht|].
  destruct (pointPart env (collect env) v) as [[t2 v2] r2]. cbn [fst] in *.
  apply Forall_app. auto.
Qed.

Lemma no_log_witness :
  Forall (fun ev => isLog ev = false)
    (fst (fst (drawImp
                 (withStops badStops
                    [{| offset := 0; color := "rgba(33, 150, 243, 0.01)" |};
                     {| offset := 1; color := "rgba(33, 150, 243, 0.4)" |}])
                 idle))).
Proof.
  apply no_log_without_a_failing_stop.
  intros s [<-|[<-|[]]]; reflexivity.
Defined.


End AreaLog.

(* ====================================================================== *)
(** * SessionBreakView *)
(* ====================================================================== *)

Section SessionBreaks.

Import SessionBreakView SessionCoverage.

Lemma visit_unflagged (env : Env) (d : VisibleData) :
  flagged d = false -> visit env d = [].
Proof.
  unfold flagged, visit. destruct (data d) as [k|]; [|reflexivity].
  now intros ->.
Qed.

Lemma visit_flagged (env : Env) (d : VisibleData) :
  flagged d = true ->
  visit env d = match createFigure env (separator env (data_x d)) with
                | Some figure => [DrawFigure figure]
                | None => []
                end.
Proof.
  unfold flagged, visit. destruct (data d) as [k|]; [|discriminate].
  now intros ->.
Qed.

(** X22.  [drawImp] draws at most one figure per visible element flagged
    as a session start; when [createFigure] accepts every spec it draws
    exactly one full-height vertical line per flagged element, in order;
    and it draws nothing when no visible element is flagged. *)
Theorem session_breaks_draw_one_line_per_session_start (env : Env) :
  (List.length (drawImp env)
   <= List.length (filter flagged (visible env)))%nat
  /\ ((forall f, createFigure env f = Some f) ->
      drawImp env
      = List.map (fun d => DrawFigure (separator env (data_x d)))
          (filter flagged (visible env)))
  /\ ((forall d, In d (visible env) -> flagged d = false) ->
      drawImp env = []).
Proof.
  unfold drawImp. induction (visible env) as [|d l IH];
    cbn [eachChildren filter List.map List.length].
  - repeat split; auto.
  - destruct IH as (IH1 & IH2 & IH3). destruct (flagged d) eqn:E.
    + rewrite (visit_flagged env d E). split; [|split].
      * rewrite length_app.
        destruct (createFigure env (separator env (data_x d)));
          cbn [List.length]; lia.
      * intros Hc. rewrite Hc, (IH2 Hc). reflexivity.
      * intros Hall. specialize (Hall d (or_introl eq_refl)). congruence.
    + rewrite (visit_unflagged env d E). cbn [app]. split; [exact IH1|].
      split; [exact IH2|]. intros Hall. apply IH3. intros d' Hin.
      apply Hall. now right.
Qed.

Lemma session_breaks_witness :
  drawImp threeBars = [DrawFigure (separator threeBars 15)].
Proof.
  rewrite (proj1 (proj2 (session_breaks_draw_one_line_per_session_start
                           threeBars)) (fun f => eq_refl)).
  reflexivity.
Defined.

End SessionBreaks.

